(** * rut-go: validation, parsing and formatting of Chilean RUTs

    A shallow embedding of [rut.go] (package [rut]) and the properties of
    its specification.

    Conventions of the embedding.
    - A Go [byte] is an [ascii]; a Go [string] (an immutable byte sequence)
      is a [list byte].  String literals are written [str "12.345.678-5"].
    - A Go [int] is a [Z]; the target is a 64-bit platform, so an [int]
      ranges over [minInt .. maxInt] and [+], [*] wrap around ([int_add],
      [int_mul]).  [/] and [%] truncate toward zero ([Z.quot], [Z.rem]).
    - [(RUT, error)] results are values of [result RUT]; the four package
      errors are the constructors of [error].
    - The fixed array [raw [12]byte] is a list of length 12 updated in place
      with stdpp's [<[n:=c]>]; the source guards every index ([n >= 12]
      returns before the store), so the out-of-range behaviour of the
      update is never reached.
    - Counters and lengths that stay far below the bounds of [int] (the
      index [n] into [raw], the length of a numeral) are a [nat] or an
      unwrapped [Z].
    - [strconv.Atoi] and [strconv.Itoa] belong to Go's standard library;
      they are modelled after their documented behaviour. *)

From Equations Require Import Equations.
From Stdlib Require Import ZArith List String Ascii Lia Bool.
From stdpp Require Import list.

Local Open Scope Z_scope.

(** ** Bytes and strings *)

Abbreviation byte := ascii.

Definition str (s : string) : list byte := list_ascii_of_string s.

(** The numeric value of a byte, and the conversion [byte(x)] of an [int],
    which keeps the low 8 bits. *)
Definition byte_val (c : byte) : Z := Z.of_N (N_of_ascii c).
Definition byte_of_int (z : Z) : byte := ascii_of_N (Z.to_N (z mod 256)).

Definition byte_le (a b : byte) : bool := byte_val a <=? byte_val b.
Definition byte_eq (a b : byte) : bool := Ascii.eqb a b.

(** ** Machine integers *)

Definition intSize : Z := 64.
Definition maxInt : Z := 2 ^ (intSize - 1) - 1.
Definition minInt : Z := - 2 ^ (intSize - 1).

Definition in_int (z : Z) : Prop := minInt <= z <= maxInt.

Definition int_wrap (z : Z) : Z :=
  (z + 2 ^ (intSize - 1)) mod 2 ^ intSize - 2 ^ (intSize - 1).

Definition int_add (a b : Z) : Z := int_wrap (a + b).
Definition int_sub (a b : Z) : Z := int_wrap (a - b).
Definition int_mul (a b : Z) : Z := int_wrap (a * b).

(** The number of significant bits of a positive [int]; the measure under
    which the digit loops terminate (at most 63 iterations, in fact 19). *)
Definition bitlen (n : Z) : nat := Z.to_nat (Z.log2 (2 * n)).

(** ** Package errors and types *)

Inductive error : Type :=
| ErrInvalidFormat
| ErrEmptyRUT
| ErrTooShort
| ErrTooLong.

Inductive result (A : Type) : Type :=
| Ok (a : A)
| Err (e : error).
Arguments Ok {A} a.
Arguments Err {A} e.

(** [type FormatStyle int], with its three constants ([iota] from 0). *)
Definition FormatStyle : Type := Z.
Definition FormatComplete : FormatStyle := 0.
Definition FormatEscaped : FormatStyle := 1.
Definition FormatWithDash : FormatStyle := 2.

(** [var multipliers = [6]int{2, 3, 4, 5, 6, 7}], read at an index.  The
    only index the source uses is [multiplierIdx], which stays in [0..5]
    (see [next_multiplierIdx]); the default [0] is never read. *)
Definition multipliers : list Z := [2; 3; 4; 5; 6; 7].
Definition multipliers_at (i : Z) : Z := nth (Z.to_nat i) multipliers 0.

Record RUT : Type := mkRUT { Number : Z; DV : byte }.

(** ** isValidRUTChar *)

Definition isValidRUTChar (c : byte) : byte * bool :=
  if byte_le "0" c && byte_le c "9" then (c, true)
  else if byte_eq c "k" || byte_eq c "K" then ("K"%char, true)
  else (zero, false).

(** ** CalculateDV *)

(** A positive [int] loses a bit when divided by ten: the termination
    argument of the two digit loops. *)
Ltac bitlen_decreases n :=
  unfold bitlen;
  let Hq := fresh "Hq" in
  let Hd := fresh "Hd" in
  assert (Hq : 0 <= n / 10) by (apply Z.div_pos; lia);
  assert (Hd : 2 * (n / 10) <= n)
    by (pose proof (Z.mul_div_le n 10 ltac:(lia)); lia);
  rewrite (Z.log2_double n) by lia;
  destruct (Z.eq_dec (n / 10) 0) as [-> | ?];
  [ pose proof (Z.log2_nonneg n); simpl; lia
  | pose proof (Z.log2_le_mono (2 * (n / 10)) n Hd);
    pose proof (Z.log2_nonneg (2 * (n / 10))); lia ].

(** The loop [for number > 0 { ... }] of [CalculateDV], on the three
    variables it updates; it returns the final [sum]. *)
Equations? dv_loop (number sum multiplierIdx : Z) : Z by wf (bitlen number) lt :=
  dv_loop number sum multiplierIdx with Z_lt_dec 0 number := {
    | left _ =>
        let digit := Z.rem number 10 in
        dv_loop (Z.quot number 10)
                (int_add sum (int_mul digit (multipliers_at multiplierIdx)))
                (Z.rem (int_add multiplierIdx 1) 6)
    | right _ => sum }.
Proof. rewrite Z.quot_div_nonneg by lia. bitlen_decreases number. Qed.

Definition CalculateDV (number : Z) : byte :=
  if number =? 0 then "0"%char
  else
    let sum := dv_loop number 0 0 in
    let remainder := Z.rem sum 11 in
    let checkResult := int_sub 11 remainder in
    if checkResult =? 11 then "0"%char
    else if checkResult =? 10 then "K"%char
    else byte_of_int (int_add checkResult (byte_val "0")).

(** ** strconv.Atoi and strconv.Itoa *)

Definition is_digit (c : byte) : bool := byte_le "0" c && byte_le c "9".

(** The digit loop of [Atoi]: [n = n*10 + int(ch - '0')], failing on a byte
    that is not a decimal digit. *)
Fixpoint atoi_digits (s : list byte) (n : Z) : option Z :=
  match s with
  | [] => Some n
  | ch :: s' =>
      if is_digit ch then atoi_digits s' (n * 10 + (byte_val ch - byte_val "0"))
      else None
  end.

(** [strconv.Atoi]: an optional sign, then at least one decimal digit; the
    value must fit an [int].  [None] stands for the returned error. *)
Definition Atoi (s : list byte) : option Z :=
  match s with
  | [] => None
  | c :: s' =>
      let neg := byte_eq c "-" in
      let ds := if neg || byte_eq c "+" then s' else s in
      match ds with
      | [] => None
      | _ :: _ =>
          match atoi_digits ds 0 with
          | None => None
          | Some n =>
              let n := if neg then - n else n in
              if (minInt <=? n) && (n <=? maxInt) then Some n else None
          end
      end
  end.

Definition digit_char (d : Z) : byte := byte_of_int (byte_val "0" + d).

(** The decimal numeral of a non-negative integer, most significant digit
    first, without leading zeros ([0] is ["0"]). *)
Equations? utoa (u : Z) : list byte by wf (bitlen u) lt :=
  utoa u with Z_lt_dec u 10 := {
    | left _ => [digit_char u]
    | right _ => utoa (u / 10) ++ [digit_char (u mod 10)] }.
Proof. bitlen_decreases u. Qed.

(** [strconv.Itoa]: the decimal numeral, with a leading ['-'] for a
    negative number. *)
Definition Itoa (i : Z) : list byte :=
  if i <? 0 then "-"%char :: utoa (- i) else utoa i.

(** ** Parse *)

Definition is_sep (c : byte) : bool := byte_eq c "." || byte_eq c "-".

(** The first loop of [Parse]: it skips separators, stops with
    [ErrTooLong] on a thirteenth accumulated byte, stops with
    [ErrInvalidFormat] on a byte [isValidRUTChar] rejects, and otherwise
    stores the normalized byte at [raw[n]].  It returns the final
    [(raw, n)]. *)
Fixpoint scan (s : list byte) (raw : list byte) (n : nat)
  : result (list byte * nat) :=
  match s with
  | [] => Ok (raw, n)
  | c :: s' =>
      if is_sep c then scan s' raw n
      else if (12 <=? n)%nat then Err ErrTooLong
      else
        let '(char, ok) := isValidRUTChar c in
        if negb ok then Err ErrInvalidFormat
        else scan s' (<[n := char]> raw) (S n)
  end.

(** The second loop of [Parse]: [for i := 0; i < n-1; i++], true when some
    [raw[i]] is ['K']. *)
Definition misplaced_K (raw : list byte) (n : nat) : bool :=
  existsb (fun i => byte_eq (nth i raw zero) "K") (seq 0 (n - 1)).

Definition Parse (s : list byte) : result RUT :=
  match s with
  | [] => Err ErrEmptyRUT
  | _ :: _ =>
      match scan s (replicate 12 zero) 0 with
      | Err e => Err e
      | Ok (raw, n) =>
          if (n <? 5)%nat then Err ErrTooShort
          else if (10 <? n)%nat then Err ErrTooLong
          else
            let dv := nth (n - 1) raw zero in
            if misplaced_K raw n then Err ErrInvalidFormat
            else
              let numStr := take (n - 1) raw in
              match Atoi numStr with
              | None => Err ErrInvalidFormat
              | Some num => Ok (mkRUT num dv)
              end
      end
  end.

(** ** RUT.Validate and Validate *)

Definition RUT_Validate (r : RUT) : bool :=
  if Number r <=? 0 then false
  else byte_eq (DV r) (CalculateDV (Number r)).

Definition Validate (rut : list byte) : bool :=
  match Parse rut with
  | Err _ => false
  | Ok r => RUT_Validate r
  end.

(** ** RUT.Format, RUT.String and Format *)

(** [strings.Builder]: the bytes written so far. *)
Definition WriteString (b s : list byte) : list byte := b ++ s.
Definition WriteByte (b : list byte) (c : byte) : list byte := b ++ [c].

(** The loop [for i, c := range numStr] of the [FormatComplete] branch.
    [numStr] is ASCII, so the runes it ranges over are its bytes and
    [WriteRune] writes one byte; [rest] is the part of [numStr] from
    index [i] on. *)
Fixpoint complete_loop (n : Z) (rest : list byte) (i : Z) (b : list byte)
  : list byte :=
  match rest with
  | [] => b
  | c :: rest' =>
      let b := WriteByte b c in
      let distFromEnd := n - i - 1 in
      let b :=
        if (0 <? distFromEnd) && (Z.rem distFromEnd 3 =? 0)
        then WriteByte b "." else b in
      complete_loop n rest' (i + 1) b
  end.

Definition RUT_Format (r : RUT) (style : FormatStyle) : list byte :=
  let numStr := Itoa (Number r) in
  if style =? FormatEscaped then
    WriteByte (WriteString [] numStr) (DV r)
  else if style =? FormatWithDash then
    WriteByte (WriteByte (WriteString [] numStr) "-") (DV r)
  else
    let n := Z.of_nat (length numStr) in
    let b := complete_loop n numStr 0 [] in
    WriteByte (WriteByte b "-") (DV r).

Definition RUT_String (r : RUT) : list byte := RUT_Format r FormatComplete.

Definition Format (s : list byte) (style : FormatStyle) : result (list byte) :=
  match Parse s with
  | Err e => Err e
  | Ok r => Ok (RUT_Format r style)
  end.

(** ** Run-time index checks

    Go checks every index and slice bound and panics when one is out of
    range, below zero or beyond the length.  The functions below are
    [Parse] and the loop of [CalculateDV] with these checks written out:
    indices are [int]s, and [None] is a panic.  The functions above
    leave the checks out; no check ever fails, as proved further down. *)

(** [raw[i] = c], [raw[i]] and [raw[:k]], for an [int] index. *)
Definition store (raw : list byte) (i : Z) (c : byte) : option (list byte) :=
  if (0 <=? i) && (i <? Z.of_nat (length raw))
  then Some (<[Z.to_nat i := c]> raw) else None.

Definition index (raw : list byte) (i : Z) : option byte :=
  if (0 <=? i) && (i <? Z.of_nat (length raw))
  then raw !! Z.to_nat i else None.

Definition slice_to (raw : list byte) (k : Z) : option (list byte) :=
  if (0 <=? k) && (k <=? Z.of_nat (length raw))
  then Some (take (Z.to_nat k) raw) else None.

Fixpoint scan_checked (s : list byte) (raw : list byte) (n : Z)
  : option (result (list byte * Z)) :=
  match s with
  | [] => Some (Ok (raw, n))
  | c :: s' =>
      if is_sep c then scan_checked s' raw n
      else if 12 <=? n then Some (Err ErrTooLong)
      else
        let '(char, ok) := isValidRUTChar c in
        if negb ok then Some (Err ErrInvalidFormat)
        else
          match store raw n char with
          | None => None
          | Some raw' => scan_checked s' raw' (n + 1)
          end
  end.

(** The indices [for i := 0; i < bound; i++] visits: none when [bound] is
    zero or negative. *)
Definition loop_indices (bound : Z) : list Z :=
  map Z.of_nat (seq 0 (Z.to_nat bound)).

(** The second loop, over the indices [i] still to visit; it returns at
    the first ['K']. *)
Fixpoint misplaced_K_checked (raw : list byte) (indices : list Z)
  : option bool :=
  match indices with
  | [] => Some false
  | i :: rest =>
      match index raw i with
      | None => None
      | Some c =>
          if byte_eq c "K" then Some true else misplaced_K_checked raw rest
      end
  end.

Definition Parse_checked (s : list byte) : option (result RUT) :=
  match s with
  | [] => Some (Err ErrEmptyRUT)
  | _ :: _ =>
      match scan_checked s (replicate 12 zero) 0 with
      | None => None
      | Some (Err e) => Some (Err e)
      | Some (Ok (raw, n)) =>
          if n <? 5 then Some (Err ErrTooShort)
          else if 10 <? n then Some (Err ErrTooLong)
          else
            match index raw (n - 1) with
            | None => None
            | Some dv =>
                match misplaced_K_checked raw (loop_indices (n - 1)) with
                | None => None
                | Some true => Some (Err ErrInvalidFormat)
                | Some false =>
                    match slice_to raw (n - 1) with
                    | None => None
                    | Some numStr =>
                        match Atoi numStr with
                        | None => Some (Err ErrInvalidFormat)
                        | Some num => Some (Ok (mkRUT num dv))
                        end
                    end
                end
            end
      end
  end.

(** The result of the unchecked scan, which counts in [nat], with the count
    as the [int] the checked scan returns. *)
Definition scan_result_int (r : result (list byte * nat))
  : result (list byte * Z) :=
  match r with
  | Ok (raw, n) => Ok (raw, Z.of_nat n)
  | Err e => Err e
  end.

(** [multipliers[i]], and the loop of [CalculateDV] reading it. *)
Definition multipliers_checked (i : Z) : option Z :=
  if (0 <=? i) && (i <? 6) then multipliers !! Z.to_nat i else None.

Equations? dv_loop_checked (number sum multiplierIdx : Z) : option Z
  by wf (bitlen number) lt :=
  dv_loop_checked number sum multiplierIdx with Z_lt_dec 0 number := {
    | left _ =>
        match multipliers_checked multiplierIdx with
        | None => None
        | Some m =>
            let digit := Z.rem number 10 in
            dv_loop_checked (Z.quot number 10)
                            (int_add sum (int_mul digit m))
                            (Z.rem (int_add multiplierIdx 1) 6)
        end
    | right _ => Some sum }.
Proof. rewrite Z.quot_div_nonneg by lia. bitlen_decreases number. Qed.

(** * The vocabulary of the specification *)

(** The meaningful characters of an input: what is left of it once the two
    separators are removed. *)
Definition meaningful (s : list byte) : list byte :=
  List.filter (fun c => negb (is_sep c)) s.

(** The allowed alphabet of meaningful characters: digits, ['K'] and ['k']. *)
Definition is_K (c : byte) : bool := byte_eq c "k" || byte_eq c "K".
Definition allowed (c : byte) : bool := is_digit c || is_K c.

(** The check characters: a digit or an uppercase ['K']. *)
Definition is_check (c : byte) : bool := is_digit c || byte_eq c "K".

(** The decimal digits of a body, most significant first, as numbers. *)
Definition decimal_digit (c : byte) : Z := byte_val c - byte_val "0".
Definition decimal_digits (body : Z) : list Z := map decimal_digit (Itoa body).

(** The reference checksum: the digit at position [k], counted from the
    least significant one, is multiplied by the weight at [k mod 6] of
    [2,3,4,5,6,7]. *)
Definition weight (k : nat) : Z := nth (k mod 6) [2; 3; 4; 5; 6; 7] 0.

Fixpoint weighted_sum (k : nat) (ds : list Z) : Z :=
  match ds with
  | [] => 0
  | d :: ds' => d * weight k + weighted_sum (S k) ds'
  end.

Definition check_character (result : Z) : byte :=
  if result =? 11 then "0"%char
  else if result =? 10 then "K"%char
  else digit_char result.

Definition reference_checksum (body : Z) : byte :=
  if body =? 0 then "0"%char
  else
    let sum := weighted_sum 0 (rev (decimal_digits body)) in
    let remainder := sum mod 11 in
    check_character (11 - remainder).

(** The grouping rule of the Complete style: scanning the digit string
    from the left, a period follows a digit exactly when the number of
    digits remaining after it is positive and a multiple of three. *)
Fixpoint group_thousands (digits : list byte) : list byte :=
  match digits with
  | [] => []
  | d :: rest =>
      let remaining := length rest in
      if (0 <? remaining)%nat && (remaining mod 3 =? 0)%nat
      then d :: "."%char :: group_thousands rest
      else d :: group_thousands rest
  end.

(** The upper-case form of the check letter: ['k'] becomes ['K'], every
    other byte is kept. *)
Definition upper_K (c : byte) : byte :=
  if byte_eq c "k" then "K"%char else c.

(** The weighted sum of the decimal digits of [n], the least significant
    one at position [k]. *)
Definition weighted_digit_sum (k : nat) (n : Z) : Z :=
  weighted_sum k (rev (map decimal_digit (utoa n))).

(** The normalized form of an allowed character, and the number a string
    of digits denotes. *)
Definition normalize (c : byte) : byte := fst (isValidRUTChar c).

Definition dec_value (ds : list byte) : Z :=
  fold_left (fun a c => a * 10 + decimal_digit c) ds 0.

(** The outcome of [Parse] as a decision list over the meaningful
    characters [m] of the input: the first condition that holds decides. *)
Definition Parse_outcome (s : list byte) : result RUT :=
  let m := meaningful s in
  let n := length m in
  match s with
  | [] => Err ErrEmptyRUT
  | _ :: _ =>
      if negb (forallb allowed (take 12 m)) then Err ErrInvalidFormat
      else if (10 <? n)%nat then Err ErrTooLong
      else if (n <? 5)%nat then Err ErrTooShort
      else if existsb is_K (take (n - 1) m) then Err ErrInvalidFormat
      else Ok (mkRUT (dec_value (take (n - 1) m))
                     (normalize (nth (n - 1) m zero)))
  end.

(** * Properties *)

(** ** The scenarios of the package's tests *)

Example CalculateDV_12345678 : CalculateDV 12345678 = "5"%char.
Proof. vm_compute. reflexivity. Qed.
Example CalculateDV_1009 : CalculateDV 1009 = "K"%char.
Proof. vm_compute. reflexivity. Qed.
Example CalculateDV_maxInt : CalculateDV maxInt = "2"%char.
Proof. vm_compute. reflexivity. Qed.
Example Itoa_12345678 : Itoa 12345678 = str "12345678".
Proof. vm_compute. reflexivity. Qed.
Example Itoa_neg : Itoa (-1009) = str "-1009".
Proof. vm_compute. reflexivity. Qed.
Example Atoi_00010 : Atoi (str "00010") = Some 10.
Proof. vm_compute. reflexivity. Qed.
Example reference_12345678 :
  rev (decimal_digits 12345678) = [8; 7; 6; 5; 4; 3; 2; 1] /\
  weighted_sum 0 [8; 7; 6; 5; 4; 3; 2; 1] = 138 /\
  reference_checksum 12345678 = "5"%char.
Proof. vm_compute. repeat split; reflexivity. Qed.
Example test_Validate :
  map Validate
    [str "12.345.678-5"; str "12345678-5"; str "123456785"; str "1.009-k";
     str "1.009-K"; str "7.654.321-6"; str "11.111.111-1"; str "12.345.678-0";
     str "1.234.567-4"; str "5.555.555-5"; str ""; str "123";
     str "12.345.678.901-2"; str "abc-d"]
  = [true; true; true; true; true; true; true; false; true; false; false;
     false; false; false].
Proof. vm_compute. reflexivity. Qed.
Example test_Parse :
  map Parse
    [str "12.345.678-5"; str "1.009-K"; str "1-9"; str "1234-5";
     str "12345678901"; str "12.34K.678-5"]
  = [Ok (mkRUT 12345678 "5"); Ok (mkRUT 1009 "K"); Err ErrTooShort;
     Ok (mkRUT 1234 "5"); Err ErrTooLong; Err ErrInvalidFormat].
Proof. vm_compute. reflexivity. Qed.
Example test_Format :
  map (Format (str "123456785")) [FormatComplete; FormatEscaped; FormatWithDash]
  = [Ok (str "12.345.678-5"); Ok (str "123456785"); Ok (str "12345678-5")].
Proof. vm_compute. reflexivity. Qed.

(** ** Bytes *)

Lemma byte_val_range (c : byte) : 0 <= byte_val c < 256.
Proof.
  unfold byte_val. pose proof (N_ascii_bounded c). lia.
Qed.

Lemma byte_val_inj (a b : byte) : byte_val a = byte_val b -> a = b.
Proof.
  unfold byte_val. intros H.
  rewrite <- (ascii_N_embedding a), <- (ascii_N_embedding b).
  f_equal. lia.
Qed.

Lemma byte_val_of_int (z : Z) : byte_val (byte_of_int z) = z mod 256.
Proof.
  unfold byte_val, byte_of_int.
  pose proof (Z.mod_pos_bound z 256 ltac:(lia)).
  rewrite N_ascii_embedding by lia. lia.
Qed.

Lemma byte_eq_true (a b : byte) : byte_eq a b = true <-> a = b.
Proof. apply Ascii.eqb_eq. Qed.

Lemma byte_eq_false (a b : byte) : byte_eq a b = false <-> a <> b.
Proof. apply Ascii.eqb_neq. Qed.

Lemma byte_eq_val (a b : byte) : byte_eq a b = (byte_val a =? byte_val b).
Proof.
  destruct (byte_eq a b) eqn:E.
  - apply byte_eq_true in E. subst. symmetry. apply Z.eqb_refl.
  - apply byte_eq_false in E. symmetry. apply Z.eqb_neq.
    intros H. apply E, byte_val_inj, H.
Qed.

Lemma is_digit_val (c : byte) : is_digit c = true <-> 48 <= byte_val c <= 57.
Proof.
  unfold is_digit, byte_le. change (byte_val "0") with 48.
  change (byte_val "9") with 57. rewrite andb_true_iff, !Z.leb_le. tauto.
Qed.

Lemma byte_val_digit_char (d : Z) : 0 <= d <= 9 -> byte_val (digit_char d) = 48 + d.
Proof.
  intros Hd. unfold digit_char. rewrite byte_val_of_int.
  change (byte_val "0") with 48. apply Z.mod_small. lia.
Qed.

Lemma is_digit_digit_char (d : Z) : 0 <= d <= 9 -> is_digit (digit_char d) = true.
Proof.
  intros Hd. apply is_digit_val. rewrite byte_val_digit_char by lia. lia.
Qed.

Lemma decimal_digit_digit_char (d : Z) :
  0 <= d <= 9 -> decimal_digit (digit_char d) = d.
Proof.
  intros Hd. unfold decimal_digit. rewrite byte_val_digit_char by lia.
  change (byte_val "0") with 48. lia.
Qed.

(** ** Machine integers *)

Lemma int_wrap_small (z : Z) : in_int z -> int_wrap z = z.
Proof.
  unfold in_int, int_wrap, minInt, maxInt, intSize. intros Hz.
  change (2 ^ (64 - 1)) with 9223372036854775808 in *.
  change (2 ^ 64) with 18446744073709551616.
  rewrite Z.mod_small; lia.
Qed.

Lemma bitlen_bound (n : Z) : 0 < n <= maxInt -> (bitlen n <= 63)%nat.
Proof.
  unfold maxInt, intSize, bitlen. intros Hn.
  change (2 ^ (64 - 1)) with 9223372036854775808 in Hn.
  assert (Z.log2 (2 * n) < 64); [ | lia ].
  apply Z.log2_lt_pow2; [ lia | ].
  change (2 ^ 64) with 18446744073709551616. lia.
Qed.

Lemma bitlen_pos (n : Z) : 0 < n -> (0 < bitlen n)%nat.
Proof.
  intros Hn. unfold bitlen. rewrite Z.log2_double by lia.
  pose proof (Z.log2_nonneg n). lia.
Qed.

Lemma bitlen_div10 (n : Z) : 0 < n -> (bitlen (n / 10) < bitlen n)%nat.
Proof. intros Hn. bitlen_decreases n. Qed.

(** ** The digit loops, one step at a time *)

Lemma utoa_small (u : Z) : u < 10 -> utoa u = [digit_char u].
Proof.
  intros Hu. rewrite utoa_equation_1.
  destruct (Z_lt_dec u 10); [ reflexivity | lia ].
Qed.

Lemma utoa_step (u : Z) :
  10 <= u -> utoa u = utoa (u / 10) ++ [digit_char (u mod 10)].
Proof.
  intros Hu. rewrite utoa_equation_1.
  destruct (Z_lt_dec u 10); [ lia | reflexivity ].
Qed.

Lemma dv_loop_done (number sum idx : Z) :
  number <= 0 -> dv_loop number sum idx = sum.
Proof.
  intros Hn. rewrite dv_loop_equation_1.
  destruct (Z_lt_dec 0 number); [ lia | reflexivity ].
Qed.

Lemma dv_loop_step (number sum idx : Z) :
  0 < number ->
  dv_loop number sum idx =
  dv_loop (Z.quot number 10)
          (int_add sum (int_mul (Z.rem number 10) (multipliers_at idx)))
          (Z.rem (int_add idx 1) 6).
Proof.
  intros Hn. rewrite dv_loop_equation_1.
  destruct (Z_lt_dec 0 number); [ reflexivity | lia ].
Qed.

(** ** CalculateDV against the reference checksum *)

Lemma weight_range (k : nat) : 2 <= weight k <= 7.
Proof.
  unfold weight. pose proof (Nat.mod_upper_bound k 6 ltac:(lia)) as Hk.
  destruct (k mod 6)%nat as [|[|[|[|[|[|?]]]]]]; simpl; lia.
Qed.

Lemma multipliers_at_weight (k : nat) :
  multipliers_at (Z.of_nat (k mod 6)) = weight k.
Proof. unfold multipliers_at, weight. rewrite Nat2Z.id. reflexivity. Qed.

Lemma next_multiplierIdx (k : nat) :
  Z.rem (int_add (Z.of_nat (k mod 6)) 1) 6 = Z.of_nat (S k mod 6).
Proof.
  pose proof (Nat.mod_upper_bound k 6 ltac:(lia)) as Hk.
  unfold int_add. rewrite int_wrap_small
    by (unfold in_int, minInt, maxInt, intSize; simpl; lia).
  rewrite Z.rem_mod_nonneg by lia.
  rewrite !Nat2Z.inj_mod. change (Z.of_nat 6) with 6.
  rewrite Nat2Z.inj_succ, <- Z.add_1_r. apply Z.add_mod_idemp_l. lia.
Qed.

(** The least significant digit of a numeral is [u mod 10], and the
    digits above it are those of [u / 10]. *)
Lemma rev_digits_small (u : Z) :
  0 <= u < 10 -> rev (map decimal_digit (utoa u)) = [u].
Proof.
  intros Hu. rewrite utoa_small by lia. simpl.
  rewrite decimal_digit_digit_char by lia. reflexivity.
Qed.

Lemma rev_digits_step (u : Z) :
  10 <= u ->
  rev (map decimal_digit (utoa u)) =
  u mod 10 :: rev (map decimal_digit (utoa (u / 10))).
Proof.
  intros Hu. rewrite utoa_step by lia.
  rewrite map_app, rev_app_distr. simpl.
  pose proof (Z.mod_pos_bound u 10 ltac:(lia)).
  rewrite decimal_digit_digit_char by lia. reflexivity.
Qed.

(** The loop invariant: with [k] digits consumed, [sum] holds their
    weighted sum and cannot have overflowed; the bound [63 * m] pays for
    the at most [m] digits still to come. *)
Lemma dv_loop_weighted (m : nat) :
  forall (number sum : Z) (k : nat),
    0 < number -> (bitlen number <= m)%nat ->
    0 <= sum -> sum + 63 * Z.of_nat m <= maxInt ->
    dv_loop number sum (Z.of_nat (k mod 6)) =
    sum + weighted_sum k (rev (map decimal_digit (utoa number))).
Proof.
  induction m as [| m IH]; intros number sum k Hn Hm Hs Hb.
  - pose proof (bitlen_pos number Hn). lia.
  - rewrite dv_loop_step by assumption.
    rewrite Z.rem_mod_nonneg, Z.quot_div_nonneg by lia.
    rewrite multipliers_at_weight, next_multiplierIdx.
    pose proof (weight_range k) as Hw.
    pose proof (Z.mod_pos_bound number 10 ltac:(lia)) as Hd.
    assert (Hp : 0 <= number mod 10 * weight k <= 63) by nia.
    assert (Hmin : minInt < 0) by reflexivity.
    unfold int_mul. rewrite int_wrap_small by (unfold in_int; lia).
    unfold int_add. rewrite int_wrap_small by (unfold in_int; lia).
    destruct (Z_lt_dec number 10) as [Hlt | Hge].
    + rewrite Z.div_small by lia. rewrite dv_loop_done by lia.
      rewrite rev_digits_small by lia. simpl.
      rewrite Z.mod_small by lia. lia.
    + assert (Hq : 0 < number / 10)
        by (apply Z.div_str_pos; lia).
      pose proof (bitlen_div10 number Hn) as Hlen.
      rewrite (IH (number / 10) _ (S k)) by lia.
      rewrite (rev_digits_step number) by lia. simpl. lia.
Qed.

Lemma weighted_sum_bound (ds : list Z) :
  forall k, Forall (fun d => 0 <= d <= 9) ds ->
            0 <= weighted_sum k ds <= 63 * Z.of_nat (length ds).
Proof.
  induction ds as [| d ds IH]; intros k Hds; simpl length; simpl weighted_sum.
  - lia.
  - inversion Hds as [| ? ? Hd Hds']; subst.
    specialize (IH (S k) Hds'). pose proof (weight_range k). nia.
Qed.

(** Induction along the digits [utoa] writes. *)
Lemma utoa_ind (P : Z -> list byte -> Prop) :
  (forall u, 0 <= u < 10 -> P u [digit_char u]) ->
  (forall u, 10 <= u -> P (u / 10) (utoa (u / 10)) ->
             P u (utoa (u / 10) ++ [digit_char (u mod 10)])) ->
  forall u, 0 <= u -> P u (utoa u).
Proof.
  intros Hsmall Hstep u Hu.
  remember (bitlen u) as m eqn:Hm.
  assert (Hle : (bitlen u <= m)%nat) by lia. clear Hm.
  revert u Hu Hle. induction m as [| m IH]; intros u Hu Hle.
  - destruct (Z_lt_dec u 10).
    + rewrite utoa_small by lia. apply Hsmall. lia.
    + pose proof (bitlen_pos u ltac:(lia)). lia.
  - destruct (Z_lt_dec u 10).
    + rewrite utoa_small by lia. apply Hsmall. lia.
    + rewrite utoa_step by lia. apply Hstep; [ lia | ].
      pose proof (bitlen_div10 u ltac:(lia)).
      apply IH; [ apply Z.div_pos; lia | lia ].
Qed.

Lemma utoa_digits (u : Z) :
  0 <= u -> Forall (fun c => is_digit c = true) (utoa u).
Proof.
  apply (utoa_ind (fun _ l => Forall (fun c => is_digit c = true) l)).
  - intros v Hv. repeat constructor. apply is_digit_digit_char. lia.
  - intros v Hv IH. apply Forall_app. split; [ exact IH | ].
    repeat constructor. apply is_digit_digit_char.
    pose proof (Z.mod_pos_bound v 10 ltac:(lia)). lia.
Qed.

Lemma decimal_digit_range (c : byte) :
  is_digit c = true -> 0 <= decimal_digit c <= 9.
Proof.
  intros H. apply is_digit_val in H. unfold decimal_digit.
  change (byte_val "0") with 48. lia.
Qed.

Lemma Itoa_nonneg (i : Z) : 0 <= i -> Itoa i = utoa i.
Proof.
  intros Hi. unfold Itoa. destruct (i <? 0) eqn:E; [ | reflexivity ].
  apply Z.ltb_lt in E. lia.
Qed.

Lemma decimal_digits_range (body : Z) :
  0 <= body -> Forall (fun d => 0 <= d <= 9) (decimal_digits body).
Proof.
  intros Hb. unfold decimal_digits. rewrite Itoa_nonneg by assumption.
  apply List.Forall_map.
  eapply List.Forall_impl; [ | apply utoa_digits; assumption ].
  intros c Hc. apply decimal_digit_range, Hc.
Qed.

(** What the loop of [CalculateDV] leaves in [sum]: the weighted sum of
    the decimal digits, which is not negative. *)
Lemma dv_loop_sum (body : Z) :
  0 < body <= maxInt ->
  dv_loop body 0 0 = weighted_sum 0 (rev (decimal_digits body)) /\
  0 <= weighted_sum 0 (rev (decimal_digits body)).
Proof.
  intros [Hpos Hhi]. split.
  - pose proof (dv_loop_weighted 63 body 0 0 Hpos
                  (bitlen_bound body (conj Hpos Hhi)) (Z.le_refl 0)
                  ltac:(vm_compute; discriminate)) as Hloop.
    change (Z.of_nat (0 mod 6)) with 0 in Hloop.
    rewrite Hloop, Z.add_0_l.
    unfold decimal_digits. rewrite Itoa_nonneg by lia. reflexivity.
  - apply weighted_sum_bound, Forall_rev, decimal_digits_range. lia.
Qed.

Lemma small_int (z : Z) : -100 <= z <= 100 -> in_int z.
Proof.
  unfold in_int, minInt, maxInt, intSize.
  change (2 ^ (64 - 1)) with 9223372036854775808. lia.
Qed.

(** C1. For every non-negative [int] body, [CalculateDV] returns the
    reference checksum of the specification: the decimal digits of the body,
    taken from the least significant one, weighted cyclically by
    [2,3,4,5,6,7], summed, reduced to [11 - sum mod 11], and mapped to
    ['0'] for 11, ['K'] for 10 and the digit character otherwise; body 0
    gives ['0']. *)
Theorem CalculateDV_reference (body : Z) :
  0 <= body <= maxInt -> CalculateDV body = reference_checksum body.
Proof.
  intros [Hlo Hhi]. unfold CalculateDV, reference_checksum.
  destruct (body =? 0) eqn:E; [ reflexivity | ]. apply Z.eqb_neq in E.
  destruct (dv_loop_sum body ltac:(lia)) as [Hloop Hsum].
  cbv zeta. rewrite Hloop. clear Hloop.
  set (sum := weighted_sum 0 (rev (decimal_digits body))) in *.
  rewrite Z.rem_mod_nonneg by lia.
  pose proof (Z.mod_pos_bound sum 11 ltac:(lia)) as Hr.
  unfold int_sub. rewrite int_wrap_small by (apply small_int; lia).
  unfold check_character.
  destruct (11 - sum mod 11 =? 11); [ reflexivity | ].
  destruct (11 - sum mod 11 =? 10); [ reflexivity | ].
  unfold int_add. rewrite int_wrap_small
    by (apply small_int; change (byte_val "0") with 48; lia).
  unfold digit_char. f_equal. lia.
Qed.

Lemma CalculateDV_reference_witness :
  0 <= 12345678 <= maxInt /\
  CalculateDV 12345678 = reference_checksum 12345678.
Proof.
  assert (H : 0 <= 12345678 <= maxInt) by (vm_compute; split; discriminate).
  split; [ exact H | exact (CalculateDV_reference 12345678 H) ].
Defined.

Lemma CalculateDV_is_check (body : Z) :
  0 <= body <= maxInt -> is_check (CalculateDV body) = true.
Proof.
  intros [Hlo Hhi]. unfold CalculateDV.
  destruct (body =? 0) eqn:E; [ reflexivity | ]. apply Z.eqb_neq in E.
  destruct (dv_loop_sum body ltac:(lia)) as [Hloop Hsum].
  cbv zeta. rewrite Hloop. clear Hloop.
  set (sum := weighted_sum 0 (rev (decimal_digits body))) in *.
  rewrite Z.rem_mod_nonneg by lia.
  pose proof (Z.mod_pos_bound sum 11 ltac:(lia)) as Hr.
  unfold int_sub. rewrite int_wrap_small by (apply small_int; lia).
  destruct (11 - sum mod 11 =? 11) eqn:E11; [ reflexivity | ].
  destruct (11 - sum mod 11 =? 10) eqn:E10; [ reflexivity | ].
  apply Z.eqb_neq in E11, E10.
  unfold int_add. rewrite int_wrap_small
    by (apply small_int; change (byte_val "0") with 48; lia).
  unfold is_check. apply orb_true_iff. left.
  apply is_digit_val. rewrite byte_val_of_int.
  change (byte_val "0") with 48. rewrite Z.mod_small by lia. lia.
Qed.

(** ** The character classes *)

Lemma isValidRUTChar_allowed (c : byte) : snd (isValidRUTChar c) = allowed c.
Proof.
  unfold isValidRUTChar, allowed, is_digit, is_K.
  destruct (byte_le "0" c && byte_le c "9"); [ reflexivity | ].
  destruct (byte_eq c "k" || byte_eq c "K"); reflexivity.
Qed.

Lemma isValidRUTChar_eq (c : byte) : isValidRUTChar c = (normalize c, allowed c).
Proof.
  rewrite <- isValidRUTChar_allowed. unfold normalize.
  destruct (isValidRUTChar c); reflexivity.
Qed.

Lemma is_K_val (c : byte) :
  is_K c = true <-> byte_val c = 107 \/ byte_val c = 75.
Proof.
  unfold is_K. rewrite orb_true_iff, !byte_eq_val, !Z.eqb_eq. reflexivity.
Qed.

Lemma is_sep_val (c : byte) :
  is_sep c = true <-> byte_val c = 46 \/ byte_val c = 45.
Proof.
  unfold is_sep. rewrite orb_true_iff, !byte_eq_val, !Z.eqb_eq. reflexivity.
Qed.

Lemma digit_not_K (c : byte) : is_digit c = true -> is_K c = false.
Proof.
  intros H. apply is_digit_val in H. apply not_true_is_false.
  intros HK. apply is_K_val in HK. lia.
Qed.

Lemma digit_not_sep (c : byte) : is_digit c = true -> is_sep c = false.
Proof.
  intros H. apply is_digit_val in H. apply not_true_is_false.
  intros HK. apply is_sep_val in HK. lia.
Qed.

Lemma allowed_not_sep (c : byte) : allowed c = true -> is_sep c = false.
Proof.
  unfold allowed. rewrite orb_true_iff. intros [H | H].
  - apply digit_not_sep, H.
  - apply is_K_val in H. apply not_true_is_false.
    intros HS. apply is_sep_val in HS. lia.
Qed.

Lemma allowed_not_K (c : byte) :
  allowed c = true -> is_K c = false -> is_digit c = true.
Proof.
  unfold allowed. rewrite orb_true_iff. intros [H | H] HK; congruence.
Qed.

Lemma normalize_digit (c : byte) : is_digit c = true -> normalize c = c.
Proof.
  unfold normalize, isValidRUTChar, is_digit. intros ->. reflexivity.
Qed.

Lemma normalize_K (c : byte) : is_K c = true -> normalize c = "K"%char.
Proof.
  intros H. unfold normalize, isValidRUTChar.
  destruct (byte_le "0" c && byte_le c "9") eqn:Hd.
  - apply digit_not_K in Hd. congruence.
  - unfold is_K in H. rewrite H. reflexivity.
Qed.

(** In the normalized buffer, the byte ['K'] marks exactly the positions of
    a ['K'] or ['k'] of the input. *)
Lemma normalize_is_K (c : byte) :
  allowed c = true -> byte_eq (normalize c) "K" = is_K c.
Proof.
  intros Ha. destruct (is_K c) eqn:HK.
  - rewrite normalize_K by assumption. reflexivity.
  - pose proof (allowed_not_K c Ha HK) as Hd.
    rewrite normalize_digit by assumption.
    apply is_digit_val in Hd. rewrite byte_eq_val.
    apply Z.eqb_neq. change (byte_val "K") with 75. lia.
Qed.

(** ** The scan of Parse *)

Lemma meaningful_cons (c : byte) (s : list byte) :
  meaningful (c :: s) = if is_sep c then meaningful s else c :: meaningful s.
Proof. unfold meaningful. simpl. destruct (is_sep c); reflexivity. Qed.

Lemma meaningful_app (s t : list byte) :
  meaningful (s ++ t) = meaningful s ++ meaningful t.
Proof. apply List.filter_app. Qed.

(** A character outside the alphabet among the first twelve meaningful
    ones stops the scan with [ErrInvalidFormat]. *)
Lemma scan_invalid (s : list byte) :
  forall raw n,
    forallb allowed (take (12 - n) (meaningful s)) = false ->
    scan s raw n = Err ErrInvalidFormat.
Proof.
  induction s as [| c s IH]; intros raw n H.
  - change (meaningful []) with (@nil byte) in H.
    rewrite take_nil in H. discriminate.
  - rewrite meaningful_cons in H. cbn [scan].
    destruct (is_sep c); [ apply IH, H | ].
    destruct (12 <=? n)%nat eqn:E.
    + apply Nat.leb_le in E. replace (12 - n)%nat with 0%nat in H by lia.
      discriminate.
    + apply Nat.leb_gt in E.
      replace (12 - n)%nat with (S (12 - S n)) in H by lia.
      simpl in H. rewrite isValidRUTChar_eq.
      destruct (allowed c); [ | reflexivity ].
      simpl. apply IH, H.
Qed.

(** Twelve allowed characters followed by a thirteenth meaningful one stop
    the scan with [ErrTooLong]. *)
Lemma scan_too_long (s : list byte) :
  forall raw n,
    (n <= 12)%nat ->
    forallb allowed (take (12 - n) (meaningful s)) = true ->
    (12 < n + length (meaningful s))%nat ->
    scan s raw n = Err ErrTooLong.
Proof.
  induction s as [| c s IH]; intros raw n Hn H Hlen.
  - simpl in Hlen. lia.
  - rewrite meaningful_cons in H, Hlen. cbn [scan].
    destruct (is_sep c); [ apply IH; assumption | ].
    destruct (12 <=? n)%nat eqn:E; [ reflexivity | ].
    apply Nat.leb_gt in E.
    replace (12 - n)%nat with (S (12 - S n)) in H by lia.
    simpl in H, Hlen. apply andb_true_iff in H as [Hc H].
    rewrite isValidRUTChar_eq, Hc. simpl.
    apply IH; [ lia | exact H | lia ].
Qed.

(** At most twelve meaningful characters, all allowed: the scan succeeds
    and leaves them, normalized, in [raw[n:]]. *)
Lemma scan_ok (s : list byte) :
  forall raw n,
    forallb allowed (meaningful s) = true ->
    (n + length (meaningful s) <= 12)%nat ->
    length raw = 12%nat ->
    exists raw',
      scan s raw n = Ok (raw', (n + length (meaningful s))%nat) /\
      length raw' = 12%nat /\
      take (n + length (meaningful s)) raw' =
      take n raw ++ map normalize (meaningful s).
Proof.
  induction s as [| c s IH]; intros raw n H Hlen Hraw.
  - exists raw. simpl. rewrite Nat.add_0_r, app_nil_r. auto.
  - rewrite meaningful_cons in *. cbn [scan].
    destruct (is_sep c); [ apply IH; assumption | ].
    simpl in H, Hlen. apply andb_true_iff in H as [Hc H].
    destruct (12 <=? n)%nat eqn:E; [ apply Nat.leb_le in E; lia | ].
    rewrite isValidRUTChar_eq, Hc. simpl negb. cbv iota.
    destruct (IH (<[n := normalize c]> raw) (S n) H ltac:(lia)
                 ltac:(rewrite length_insert; exact Hraw))
      as (raw' & Hscan & Hlen' & Htake).
    exists raw'. simpl length.
    replace (n + S (length (meaningful s)))%nat
      with (S n + length (meaningful s))%nat by lia.
    split; [ exact Hscan | ]. split; [ exact Hlen' | ].
    rewrite Htake.
    rewrite (take_S_r _ n (normalize c))
      by (apply list_lookup_insert_eq; lia).
    rewrite take_insert_ge by lia.
    rewrite <- app_assoc. reflexivity.
Qed.

(** ** Atoi on strings of digits *)

Lemma atoi_digits_value (l : list byte) :
  forall a, forallb is_digit l = true ->
            atoi_digits l a =
            Some (fold_left (fun a c => a * 10 + decimal_digit c) l a).
Proof.
  induction l as [| c l IH]; intros a H; simpl in *.
  - reflexivity.
  - apply andb_true_iff in H as [Hc H]. rewrite Hc. apply IH, H.
Qed.

Lemma dec_value_from_bound (l : list byte) :
  forall a, 0 <= a -> forallb is_digit l = true ->
            a * 10 ^ Z.of_nat (length l)
            <= fold_left (fun a c => a * 10 + decimal_digit c) l a
            < (a + 1) * 10 ^ Z.of_nat (length l).
Proof.
  induction l as [| c l IH]; intros a Ha H.
  - simpl. lia.
  - simpl in H. apply andb_true_iff in H as [Hc H].
    pose proof (decimal_digit_range c Hc) as Hd.
    cbn [fold_left length]. rewrite Nat2Z.inj_succ, Z.pow_succ_r by lia.
    specialize (IH (a * 10 + decimal_digit c) ltac:(lia) H).
    assert (0 < 10 ^ Z.of_nat (length l)) by (apply Z.pow_pos_nonneg; lia).
    nia.
Qed.

Lemma dec_value_bound (l : list byte) :
  forallb is_digit l = true -> 0 <= dec_value l < 10 ^ Z.of_nat (length l).
Proof.
  intros H. pose proof (dec_value_from_bound l 0 ltac:(lia) H).
  unfold dec_value. lia.
Qed.

Lemma digit_not_sign (c : byte) :
  is_digit c = true -> byte_eq c "-" || byte_eq c "+" = false.
Proof.
  intros H. apply is_digit_val in H. rewrite !byte_eq_val.
  change (byte_val "-") with 45. change (byte_val "+") with 43.
  apply orb_false_iff. split; apply Z.eqb_neq; lia.
Qed.

(** [Atoi] on a non-empty string of at most 18 digits returns the number
    it denotes; leading zeros are accepted and do not count. *)
Lemma Atoi_digits (l : list byte) :
  l <> [] -> forallb is_digit l = true -> (length l <= 18)%nat ->
  Atoi l = Some (dec_value l).
Proof.
  intros Hne H Hlen. destruct l as [| c l]; [ congruence | ].
  pose proof (dec_value_bound _ H) as Hb.
  unfold Atoi. pose proof H as H'. simpl in H'.
  apply andb_true_iff in H' as [Hc _].
  pose proof (digit_not_sign c Hc) as Hs.
  apply orb_false_iff in Hs as [Hm Hp]. rewrite Hm, Hp. cbn [orb].
  cbv zeta. rewrite atoi_digits_value by assumption. fold (dec_value (c :: l)).
  assert (Hpow : 10 ^ Z.of_nat (length (c :: l)) <= 10 ^ 18)
    by (apply Z.pow_le_mono_r; lia).
  assert (Hmax : 10 ^ 18 <= maxInt) by (vm_compute; discriminate).
  assert (Hmin : minInt <= 0) by (vm_compute; discriminate).
  rewrite (proj2 (Z.leb_le _ _)) by lia.
  rewrite (proj2 (Z.leb_le _ _)) by lia. reflexivity.
Qed.

(** ** The second loop and the slices of Parse *)

Lemma misplaced_K_take (raw : list byte) (n : nat) :
  (n - 1 <= length raw)%nat ->
  misplaced_K raw n = existsb (fun c => byte_eq c "K") (take (n - 1) raw).
Proof.
  unfold misplaced_K. generalize (n - 1)%nat as k. clear n.
  induction k as [| k IH]; intros Hk.
  - reflexivity.
  - destruct (lookup_lt_is_Some_2 raw k ltac:(lia)) as [x Hx].
    rewrite seq_S, existsb_app, (take_S_r _ _ _ Hx), existsb_app.
    rewrite IH by lia. simpl. rewrite (nth_lookup_Some _ _ _ _ Hx).
    reflexivity.
Qed.

Lemma body_digits (l : list byte) :
  forallb allowed l = true -> existsb is_K l = false ->
  forallb is_digit l = true.
Proof.
  induction l as [| c l IH]; simpl; [ reflexivity | ].
  intros Ha HK. apply andb_true_iff in Ha as [Hc Ha].
  apply orb_false_iff in HK as [HKc HK].
  rewrite (allowed_not_K c Hc HKc). apply IH; assumption.
Qed.

Lemma normalize_digits (l : list byte) :
  forallb is_digit l = true -> map normalize l = l.
Proof.
  induction l as [| c l IH]; simpl; [ reflexivity | ].
  intros H. apply andb_true_iff in H as [Hc H].
  rewrite normalize_digit, IH by assumption. reflexivity.
Qed.

Lemma existsb_K_normalize (l : list byte) :
  forallb allowed l = true ->
  existsb (fun c => byte_eq c "K") (map normalize l) = existsb is_K l.
Proof.
  induction l as [| c l IH]; simpl; [ reflexivity | ].
  intros H. apply andb_true_iff in H as [Hc H].
  rewrite normalize_is_K, IH by assumption. reflexivity.
Qed.

Lemma forallb_take {A} (f : A -> bool) (l : list A) (k : nat) :
  forallb f l = true -> forallb f (take k l) = true.
Proof.
  revert k. induction l as [| x l IH]; intros [| k]; simpl; try reflexivity.
  intros H. apply andb_true_iff in H as [Hx H].
  rewrite Hx. apply IH, H.
Qed.

(** ** Parse as a decision list *)

Lemma normalize_zero : normalize zero = zero.
Proof. reflexivity. Qed.

(** [Parse] decides as [Parse_outcome] does: empty input; an invalid
    character among the first twelve meaningful ones; more than ten
    meaningful characters; fewer than five; a ['K'] before the last
    position; and otherwise the identifier read off the digits. *)
Theorem Parse_decides (s : list byte) : Parse s = Parse_outcome s.
Proof.
  destruct s as [| c0 s0]; [ reflexivity | ].
  unfold Parse, Parse_outcome.
  set (s := c0 :: s0). set (m := meaningful s). cbv zeta.
  destruct (forallb allowed (take 12 m)) eqn:Hall; cbn [negb].
  2: { rewrite (scan_invalid s _ 0%nat) by exact Hall. reflexivity. }
  destruct (le_lt_dec (length m) 12) as [Hle | Hgt].
  2: { rewrite (scan_too_long s _ 0%nat (Nat.le_0_l _) Hall Hgt).
       rewrite (proj2 (Nat.ltb_lt _ _)) by lia. reflexivity. }
  rewrite take_ge in Hall by exact Hle.
  destruct (scan_ok s (replicate 12 zero) 0%nat Hall Hle
              (length_replicate _ _)) as (raw & Hscan & Hraw & Htake).
  fold m in Hscan, Htake. rewrite Hscan. cbn [Nat.add] in *. rewrite take_0 in Htake. cbn [app] in Htake.
  destruct (10 <? length m)%nat eqn:H10.
  { apply Nat.ltb_lt in H10.
    rewrite (proj2 (Nat.ltb_ge _ _)) by lia. reflexivity. }
  apply Nat.ltb_ge in H10.
  destruct (length m <? 5)%nat eqn:H5; [ reflexivity | ].
  apply Nat.ltb_ge in H5.
  assert (Hbody : take (length m - 1) raw = map normalize (take (length m - 1) m)).
  { rewrite <- List.firstn_map, <- Htake, take_take.
    f_equal. lia. }
  assert (Hdv : nth (length m - 1) raw zero = normalize (nth (length m - 1) m zero)).
  { transitivity (nth (length m - 1) (map normalize m) zero).
    - rewrite <- Htake, !nth_lookup, lookup_take_lt by lia. reflexivity.
    - exact (List.map_nth normalize m zero (length m - 1)). }
  pose proof (forallb_take _ _ (length m - 1) Hall) as Hall'.
  rewrite misplaced_K_take by lia.
  rewrite Hbody, Hdv, existsb_K_normalize by exact Hall'.
  destruct (existsb is_K (take (length m - 1) m)) eqn:HK; [ reflexivity | ].
  pose proof (body_digits _ Hall' HK) as Hdig.
  rewrite normalize_digits by exact Hdig.
  rewrite Atoi_digits; [ reflexivity | | exact Hdig | ].
  - intros E. apply (f_equal (@length byte)) in E.
    rewrite length_take in E. simpl in E. lia.
  - rewrite length_take. lia.
Qed.

(** ** Decimal numerals *)

Lemma dec_value_snoc (l : list byte) (c : byte) :
  dec_value (l ++ [c]) = dec_value l * 10 + decimal_digit c.
Proof. unfold dec_value. rewrite fold_left_app. reflexivity. Qed.

(** Reading back the numeral of [u] gives [u]. *)
Lemma dec_value_utoa (u : Z) : 0 <= u -> dec_value (utoa u) = u.
Proof.
  apply (utoa_ind (fun v l => dec_value l = v)).
  - intros v Hv. unfold dec_value. simpl.
    rewrite decimal_digit_digit_char by lia. lia.
  - intros v Hv IH. rewrite dec_value_snoc, IH.
    pose proof (Z.mod_pos_bound v 10 ltac:(lia)).
    rewrite decimal_digit_digit_char by lia.
    pose proof (Z.div_mod v 10 ltac:(lia)). lia.
Qed.

(** A number below [10^k] has at most [k] digits, and one from [10^k] on
    has more than [k]. *)
Lemma utoa_length_le (k : nat) :
  forall u, 0 <= u < 10 ^ Z.of_nat (S k) -> (length (utoa u) <= S k)%nat.
Proof.
  induction k as [| k IH]; intros u Hu.
  - rewrite utoa_small by (change (10 ^ Z.of_nat 1) with 10 in Hu; lia).
    simpl. lia.
  - destruct (Z_lt_dec u 10).
    + rewrite utoa_small by lia. simpl. lia.
    + rewrite utoa_step, length_app by lia. simpl.
      rewrite Nat2Z.inj_succ, Z.pow_succ_r in Hu by lia.
      assert (0 <= u / 10 < 10 ^ Z.of_nat (S k)).
      { split; [ apply Z.div_pos; lia | ].
        apply Z.div_lt_upper_bound; lia. }
      specialize (IH (u / 10) ltac:(lia)). lia.
Qed.

Lemma utoa_length_gt (k : nat) :
  forall u, 10 ^ Z.of_nat k <= u -> (k < length (utoa u))%nat.
Proof.
  induction k as [| k IH]; intros u Hu.
  - destruct (Z_lt_dec u 10).
    + rewrite utoa_small by lia. simpl. lia.
    + rewrite utoa_step, length_app by lia. simpl. lia.
  - rewrite Nat2Z.inj_succ, Z.pow_succ_r in Hu by lia.
    assert (0 < 10 ^ Z.of_nat k) by (apply Z.pow_pos_nonneg; lia).
    rewrite utoa_step, length_app by lia. simpl.
    assert (10 ^ Z.of_nat k <= u / 10)
      by (apply Z.div_le_lower_bound; lia).
    specialize (IH (u / 10) ltac:(lia)). lia.
Qed.

Lemma utoa_length_body (body : Z) :
  1000 <= body <= 999999999 -> (4 <= length (utoa body) <= 9)%nat.
Proof.
  intros Hb. split.
  - apply (utoa_length_gt 3). change (10 ^ Z.of_nat 3) with 1000. lia.
  - apply (utoa_length_le 8). change (10 ^ Z.of_nat 9) with 1000000000. lia.
Qed.

Lemma utoa_forallb_digit (u : Z) : 0 <= u -> forallb is_digit (utoa u) = true.
Proof.
  intros Hu. apply forallb_forall. intros c Hc.
  pose proof (utoa_digits u Hu) as H.
  rewrite List.Forall_forall in H. apply H, Hc.
Qed.

(** ** The Complete style groups by thousands *)

Lemma complete_loop_group (rest : list byte) :
  forall n i b,
    n - i = Z.of_nat (length rest) ->
    complete_loop n rest i b = b ++ group_thousands rest.
Proof.
  induction rest as [| c rest IH]; intros n i b Hn.
  - simpl. rewrite app_nil_r. reflexivity.
  - cbn [complete_loop group_thousands]. cbv zeta.
    cbn [length] in Hn. rewrite Nat2Z.inj_succ in Hn.
    replace (n - i - 1) with (Z.of_nat (length rest)) by lia.
    rewrite IH by lia. unfold WriteByte.
    replace (0 <? Z.of_nat (length rest))
      with (0 <? length rest)%nat
      by (destruct (length rest); reflexivity).
    replace (Z.rem (Z.of_nat (length rest)) 3 =? 0)
      with (length rest mod 3 =? 0)%nat.
    + destruct ((0 <? length rest)%nat && (length rest mod 3 =? 0)%nat);
        rewrite <- ?app_assoc; reflexivity.
    + rewrite Z.rem_mod_nonneg by lia.
      change 3 with (Z.of_nat 3). rewrite <- Nat2Z.inj_mod.
      destruct (length rest mod 3)%nat; reflexivity.
Qed.

Lemma RUT_Format_Complete (r : RUT) :
  RUT_Format r FormatComplete =
  group_thousands (Itoa (Number r)) ++ ["-"%char; DV r].
Proof.
  unfold RUT_Format.
  change (FormatComplete =? FormatEscaped) with false.
  change (FormatComplete =? FormatWithDash) with false.
  cbv iota zeta. rewrite complete_loop_group by lia.
  unfold WriteByte. rewrite <- app_assoc. reflexivity.
Qed.

(** ** When Parse succeeds *)

Lemma digits_allowed (l : list byte) :
  forallb is_digit l = true -> forallb allowed l = true.
Proof.
  induction l as [| c l IH]; simpl; [ reflexivity | ].
  intros H. apply andb_true_iff in H as [Hc H].
  unfold allowed at 1. rewrite Hc, IH by assumption. reflexivity.
Qed.

Lemma digits_no_K (l : list byte) :
  forallb is_digit l = true -> existsb is_K l = false.
Proof.
  induction l as [| c l IH]; simpl; [ reflexivity | ].
  intros H. apply andb_true_iff in H as [Hc H].
  rewrite digit_not_K, IH by assumption. reflexivity.
Qed.

Lemma meaningful_nonempty (s : list byte) : meaningful s <> [] -> s <> [].
Proof. intros H ->. apply H. reflexivity. Qed.

(** From four to nine digits followed by one allowed character, with
    separators anywhere: [Parse] returns the number the digits denote and
    the normalized last character. *)
Lemma Parse_digits_check (s ds : list byte) (c : byte) :
  meaningful s = ds ++ [c] ->
  forallb is_digit ds = true -> (4 <= length ds <= 9)%nat ->
  allowed c = true ->
  Parse s = Ok (mkRUT (dec_value ds) (normalize c)).
Proof.
  intros Hm Hds Hlen Hc. rewrite Parse_decides. unfold Parse_outcome.
  destruct s as [| c0 s0].
  { destruct ds; discriminate Hm. }
  rewrite Hm. cbv zeta. rewrite length_app. cbn [length].
  rewrite take_ge by (rewrite length_app; simpl; lia).
  rewrite forallb_app, (digits_allowed ds Hds). cbn [forallb].
  rewrite Hc. cbn [andb negb].
  rewrite (proj2 (Nat.ltb_ge _ _)) by lia.
  rewrite (proj2 (Nat.ltb_ge _ _)) by lia.
  replace (length ds + 1 - 1)%nat with (length ds) by lia.
  rewrite take_app_length, (digits_no_K ds Hds).
  rewrite nth_middle. reflexivity.
Qed.

Lemma split_last (l : list byte) :
  (0 < length l)%nat ->
  l = take (length l - 1) l ++ [nth (length l - 1) l zero].
Proof.
  intros Hl.
  destruct (lookup_lt_is_Some_2 l (length l - 1) ltac:(lia)) as [x Hx].
  rewrite (nth_lookup_Some _ _ _ _ Hx).
  rewrite <- (take_S_r _ _ _ Hx).
  symmetry. apply take_ge. lia.
Qed.

(** Conversely, whatever [Parse] accepts has that shape. *)
Lemma Parse_Ok_inv (s : list byte) (r : RUT) :
  Parse s = Ok r ->
  exists ds c,
    meaningful s = ds ++ [c] /\
    forallb is_digit ds = true /\ (4 <= length ds <= 9)%nat /\
    allowed c = true /\
    r = mkRUT (dec_value ds) (normalize c).
Proof.
  rewrite Parse_decides. unfold Parse_outcome.
  destruct s as [| c0 s0]; [ discriminate | ].
  set (m := meaningful (c0 :: s0)). cbv zeta.
  destruct (forallb allowed (take 12 m)) eqn:Hall; [ | discriminate ].
  destruct (10 <? length m)%nat eqn:H10; [ discriminate | ].
  destruct (length m <? 5)%nat eqn:H5; [ discriminate | ].
  destruct (existsb is_K (take (length m - 1) m)) eqn:HK; [ discriminate | ].
  cbn [negb]. intros [= <-].
  apply Nat.ltb_ge in H10, H5.
  rewrite take_ge in Hall by lia.
  pose proof (split_last m ltac:(lia)) as Hsplit.
  exists (take (length m - 1) m), (nth (length m - 1) m zero).
  rewrite Hsplit, forallb_app in Hall.
  apply andb_true_iff in Hall as [Hbody Hlast].
  cbn [forallb] in Hlast. rewrite andb_true_r in Hlast.
  repeat split.
  - exact Hsplit.
  - apply body_digits; assumption.
  - rewrite length_take. lia.
  - rewrite length_take. lia.
  - exact Hlast.
Qed.

(** ** The meaningful characters of a rendered identifier *)

Lemma meaningful_digits (l : list byte) :
  forallb is_digit l = true -> meaningful l = l.
Proof.
  induction l as [| c l IH]; [ reflexivity | ].
  intros H. cbn [forallb] in H. apply andb_true_iff in H as [Hc H].
  rewrite meaningful_cons, digit_not_sep, IH by assumption. reflexivity.
Qed.

Lemma meaningful_group (l : list byte) :
  meaningful (group_thousands l) = meaningful l.
Proof.
  induction l as [| c l IH]; [ reflexivity | ].
  cbn [group_thousands]. cbv zeta.
  destruct ((0 <? length l)%nat && (length l mod 3 =? 0)%nat);
    rewrite !meaningful_cons, ?IH; reflexivity.
Qed.

Lemma is_check_allowed (c : byte) : is_check c = true -> allowed c = true.
Proof.
  unfold is_check, allowed, is_K. intros H.
  apply orb_true_iff in H as [-> | ->]; [ reflexivity | ].
  rewrite !orb_true_r. reflexivity.
Qed.

Lemma is_check_normalize (c : byte) : is_check c = true -> normalize c = c.
Proof.
  unfold is_check. intros H. apply orb_true_iff in H as [H | H].
  - apply normalize_digit, H.
  - apply byte_eq_true in H. subst. reflexivity.
Qed.

Lemma normalize_is_check (c : byte) :
  allowed c = true -> is_check (normalize c) = true.
Proof.
  intros H. unfold is_check. rewrite normalize_is_K by assumption.
  destruct (is_K c) eqn:HK; [ apply orb_true_r | ].
  rewrite normalize_digit by (apply allowed_not_K; assumption).
  rewrite (allowed_not_K c H HK). reflexivity.
Qed.

(** Whatever the style, removing the separators from the rendering of a
    non-negative body leaves its numeral followed by the check character. *)
Lemma RUT_Format_meaningful (r : RUT) (style : FormatStyle) :
  0 <= Number r -> is_check (DV r) = true ->
  meaningful (RUT_Format r style) = utoa (Number r) ++ [DV r].
Proof.
  intros Hn Hc.
  pose proof (allowed_not_sep _ (is_check_allowed _ Hc)) as Hsep.
  pose proof (meaningful_digits _ (utoa_forallb_digit _ Hn)) as Hnum.
  assert (Hdv : meaningful [DV r] = [DV r])
    by (rewrite meaningful_cons, Hsep; reflexivity).
  assert (Hdash : meaningful ["-"%char; DV r] = [DV r])
    by (rewrite meaningful_cons; exact Hdv).
  destruct (Z.eq_dec style FormatComplete) as [-> | Hstyle].
  { rewrite RUT_Format_Complete, meaningful_app, meaningful_group.
    rewrite Itoa_nonneg, Hnum, Hdash by assumption. reflexivity. }
  unfold RUT_Format. rewrite Itoa_nonneg by assumption.
  unfold WriteByte, WriteString. cbv zeta.
  destruct (style =? FormatEscaped).
  { cbn [app]. rewrite meaningful_app, Hnum, Hdv. reflexivity. }
  destruct (style =? FormatWithDash).
  { cbn [app]. rewrite <- app_assoc, meaningful_app, Hnum. cbn [app].
    rewrite Hdash. reflexivity. }
  rewrite complete_loop_group by lia. cbn [app].
  rewrite <- app_assoc, meaningful_app, meaningful_group, Hnum. cbn [app].
  rewrite Hdash. reflexivity.
Qed.

(** Rendering then parsing: an identifier whose body has from four to nine
    digits and whose check character is a digit or ['K'] comes back
    unchanged, in every style, whether or not the check character is the
    right one. *)
Lemma Parse_RUT_Format (body : Z) (check : byte) (style : FormatStyle) :
  1000 <= body <= 999999999 -> is_check check = true ->
  Parse (RUT_Format (mkRUT body check) style) = Ok (mkRUT body check).
Proof.
  intros Hb Hc.
  rewrite (Parse_digits_check _ (utoa body) check).
  - rewrite dec_value_utoa, is_check_normalize by (assumption || lia).
    reflexivity.
  - apply (RUT_Format_meaningful (mkRUT body check)); simpl; [ lia | exact Hc ].
  - apply utoa_forallb_digit. lia.
  - apply utoa_length_body, Hb.
  - apply is_check_allowed, Hc.
Qed.

(** ** Validation *)

(** Replacing the last character of an accepted text by any allowed
    character gives an accepted text with the same number: whether [Parse]
    succeeds does not depend on the check character. *)
Lemma Parse_any_check (t : list byte) (c c' : byte) (r : RUT) :
  is_sep c = false -> allowed c' = true ->
  Parse (t ++ [c]) = Ok r ->
  Parse (t ++ [c']) = Ok (mkRUT (Number r) (normalize c')).
Proof.
  intros Hc Hc' HP.
  destruct (Parse_Ok_inv _ _ HP) as (ds & c0 & Hm & Hds & Hlen & _ & ->).
  rewrite meaningful_app, (meaningful_cons c), Hc in Hm.
  apply app_inj_tail in Hm as [Hm _].
  apply (Parse_digits_check _ ds c'); try assumption.
  rewrite meaningful_app, (meaningful_cons c'), (allowed_not_sep c' Hc'), Hm.
  reflexivity.
Qed.

(** C2. [RUT.Validate] is false for every identifier with [Number <= 0]
    and otherwise true exactly when [DV] is [CalculateDV Number];
    [Validate] composes [Parse] with [RUT.Validate] and is false on every
    parse error; a wrong check character is not a parse error: the text
    parses and merely validates to false. *)
Theorem Validate_semantics :
  (forall r, Number r <= 0 -> RUT_Validate r = false) /\
  (forall r, 0 < Number r ->
             (RUT_Validate r = true <-> DV r = CalculateDV (Number r))) /\
  (forall s, Validate s =
             match Parse s with Ok r => RUT_Validate r | Err _ => false end) /\
  (forall s e, Parse s = Err e -> Validate s = false) /\
  (forall s r, Parse s = Ok r -> DV r <> CalculateDV (Number r) ->
               Validate s = false) /\
  (forall t c c' r, is_sep c = false -> allowed c' = true ->
                    Parse (t ++ [c]) = Ok r ->
                    exists r', Parse (t ++ [c']) = Ok r' /\
                               Number r' = Number r /\
                               DV r' = normalize c') /\
  (forall body check style,
      1000 <= body <= 999999999 -> is_check check = true ->
      check <> CalculateDV body ->
      Parse (RUT_Format (mkRUT body check) style) = Ok (mkRUT body check) /\
      Validate (RUT_Format (mkRUT body check) style) = false).
Proof.
  assert (Hmismatch : forall r, DV r <> CalculateDV (Number r) ->
                                RUT_Validate r = false).
  { intros r Hne. unfold RUT_Validate.
    destruct (Number r <=? 0); [ reflexivity | ].
    apply byte_eq_false, Hne. }
  repeat apply conj.
  - intros r Hr. unfold RUT_Validate.
    rewrite (proj2 (Z.leb_le _ _)) by exact Hr. reflexivity.
  - intros r Hr. unfold RUT_Validate.
    rewrite (proj2 (Z.leb_gt _ _)) by exact Hr. apply byte_eq_true.
  - intros s. unfold Validate. destruct (Parse s); reflexivity.
  - intros s e HP. unfold Validate. rewrite HP. reflexivity.
  - intros s r HP Hne. unfold Validate. rewrite HP. apply Hmismatch, Hne.
  - intros t c c' r Hc Hc' HP.
    exists (mkRUT (Number r) (normalize c')).
    rewrite (Parse_any_check t c c' r Hc Hc' HP). auto.
  - intros body check style Hb Hc Hne.
    pose proof (Parse_RUT_Format body check style Hb Hc) as HP.
    split; [ exact HP | ].
    unfold Validate. rewrite HP. apply Hmismatch, Hne.
Qed.

(** ** Round trip *)

(** C3, as amended. For every identifier [(body, check)] whose body has
    from four to nine digits ([1000 <= body <= 999999999]) and whose check
    is [CalculateDV body], and for every style (Complete, Escaped,
    WithDash, and any other value, which renders as Complete), [Parse] of
    [RUT.Format] succeeds and returns the same body and check. *)
Theorem Parse_Format_roundtrip (body : Z) (check : byte) (style : FormatStyle) :
  1000 <= body <= 999999999 -> CalculateDV body = check ->
  Parse (RUT_Format (mkRUT body check) style) = Ok (mkRUT body check).
Proof.
  intros Hb <-. apply Parse_RUT_Format; [ exact Hb | ].
  apply CalculateDV_is_check.
  assert (999999999 <= maxInt) by (vm_compute; discriminate). lia.
Qed.

Lemma Parse_Format_roundtrip_witness :
  Parse (str "12.345.678-5") = Ok (mkRUT 12345678 "5") /\
  Parse (str "123456785") = Ok (mkRUT 12345678 "5") /\
  Parse (str "12345678-5") = Ok (mkRUT 12345678 "5").
Proof.
  repeat apply conj.
  - apply (Parse_Format_roundtrip 12345678 "5" FormatComplete);
      [ lia | vm_compute; reflexivity ].
  - apply (Parse_Format_roundtrip 12345678 "5" FormatEscaped);
      [ lia | vm_compute; reflexivity ].
  - apply (Parse_Format_roundtrip 12345678 "5" FormatWithDash);
      [ lia | vm_compute; reflexivity ].
Defined.

(** C3 as stated fails on short bodies: the identifier [(1, '9')] has the
    right check character, [RUT.Validate] accepts it and [Parse] itself
    produces it, yet none of its three renderings parses. *)
Lemma Parse_Format_roundtrip_short_body :
  CalculateDV 1 = "9"%char /\
  RUT_Validate (mkRUT 1 "9") = true /\
  Parse (str "0001-9") = Ok (mkRUT 1 "9") /\
  RUT_Format (mkRUT 1 "9") FormatComplete = str "1-9" /\
  Parse (RUT_Format (mkRUT 1 "9") FormatComplete) = Err ErrTooShort /\
  Parse (RUT_Format (mkRUT 1 "9") FormatEscaped) = Err ErrTooShort /\
  Parse (RUT_Format (mkRUT 1 "9") FormatWithDash) = Err ErrTooShort.
Proof. vm_compute. repeat split; reflexivity. Qed.

(** ** Lengths *)

Lemma misplaced_at (m : list byte) (i : nat) (c : byte) :
  m !! i = Some c -> is_K c = true -> (i + 1 < length m)%nat ->
  existsb is_K (take (length m - 1) m) = true.
Proof.
  intros Hi HK Hlt. apply existsb_exists. exists c. split; [ | exact HK ].
  apply list_elem_of_In, (list_elem_of_lookup_2 _ i).
  rewrite lookup_take_lt by lia. exact Hi.
Qed.

(** The outcome for a non-empty input whose meaningful characters are all
    allowed, by their number. *)
Lemma Parse_by_length (s : list byte) :
  s <> [] -> forallb allowed (meaningful s) = true ->
  ((length (meaningful s) < 5)%nat -> Parse s = Err ErrTooShort) /\
  ((10 < length (meaningful s))%nat -> Parse s = Err ErrTooLong) /\
  ((5 <= length (meaningful s) <= 10)%nat ->
   existsb is_K (take (length (meaningful s) - 1) (meaningful s)) = true ->
   Parse s = Err ErrInvalidFormat) /\
  ((5 <= length (meaningful s) <= 10)%nat ->
   existsb is_K (take (length (meaningful s) - 1) (meaningful s)) = false ->
   exists r, Parse s = Ok r).
Proof.
  intros Hs Hall. rewrite Parse_decides. unfold Parse_outcome.
  destruct s as [| c0 s0]; [ congruence | ].
  set (m := meaningful (c0 :: s0)) in *. cbv zeta.
  rewrite (forallb_take _ _ 12 Hall). cbn [negb].
  repeat apply conj.
  - intros H. rewrite (proj2 (Nat.ltb_ge _ _)) by lia.
    rewrite (proj2 (Nat.ltb_lt _ _)) by lia. reflexivity.
  - intros H. rewrite (proj2 (Nat.ltb_lt _ _)) by lia. reflexivity.
  - intros H HK. rewrite (proj2 (Nat.ltb_ge 10 _)) by lia.
    rewrite (proj2 (Nat.ltb_ge _ 5)) by lia. rewrite HK. reflexivity.
  - intros H HK. rewrite (proj2 (Nat.ltb_ge 10 _)) by lia.
    rewrite (proj2 (Nat.ltb_ge _ 5)) by lia. rewrite HK. eauto.
Qed.

(** C4. For every input whose meaningful characters all belong to the
    allowed alphabet, with no ['K'] or ['k'] before the last one, and whose
    body (all meaningful characters but the last) [Atoi] can parse:
    [Parse] fails with [ErrTooShort] below 5 meaningful characters, fails
    with [ErrTooLong] above 10, and succeeds from 5 to 10, in particular
    at exactly 5 and exactly 10; the check character is not examined. *)
Theorem Parse_length_boundary (s : list byte) :
  forallb allowed (meaningful s) = true ->
  existsb is_K (take (length (meaningful s) - 1) (meaningful s)) = false ->
  Atoi (take (length (meaningful s) - 1) (meaningful s)) <> None ->
  ((length (meaningful s) < 5)%nat -> Parse s = Err ErrTooShort) /\
  ((10 < length (meaningful s))%nat -> Parse s = Err ErrTooLong) /\
  ((5 <= length (meaningful s) <= 10)%nat -> exists r, Parse s = Ok r).
Proof.
  intros Hall HK Hbody.
  assert (Hs : s <> []).
  { intros ->. apply Hbody. reflexivity. }
  destruct (Parse_by_length s Hs Hall) as (Hshort & Hlong & _ & Hok).
  repeat apply conj; auto.
Qed.

Lemma Parse_length_boundary_witness :
  Parse (str "1-9") = Err ErrTooShort /\
  Parse (str "12345678901") = Err ErrTooLong /\
  (exists r, Parse (str "1234-5") = Ok r) /\
  (exists r, Parse (str "12.345.678-50") = Ok r).
Proof.
  repeat apply conj.
  - apply (Parse_length_boundary (str "1-9"));
      [ reflexivity | reflexivity | vm_compute; discriminate
      | vm_compute; lia ].
  - apply (Parse_length_boundary (str "12345678901"));
      [ reflexivity | reflexivity | vm_compute; discriminate
      | vm_compute; lia ].
  - apply (Parse_length_boundary (str "1234-5"));
      [ reflexivity | reflexivity | vm_compute; discriminate
      | vm_compute; lia ].
  - apply (Parse_length_boundary (str "12.345.678-50"));
      [ reflexivity | reflexivity | vm_compute; discriminate
      | vm_compute; lia ].
Defined.

(** ** Misplaced check letters *)

(** C5, as amended. An input in which a ['K'] or ['k'] occurs at a
    meaningful position other than the last one is always rejected; the
    error is [ErrInvalidFormat] whenever the input has from 5 to 10
    meaningful characters, whatever the position and the case of the
    letter.  (Shorter and longer inputs are rejected by the scan and the
    length checks, which come first.) *)
Theorem misplaced_K_rejected (s : list byte) (i : nat) (c : byte) :
  meaningful s !! i = Some c -> is_K c = true ->
  (i + 1 < length (meaningful s))%nat ->
  (exists e, Parse s = Err e) /\
  ((5 <= length (meaningful s) <= 10)%nat -> Parse s = Err ErrInvalidFormat).
Proof.
  intros Hi HK Hlt.
  pose proof (misplaced_at _ i c Hi HK Hlt) as Hex.
  rewrite Parse_decides. unfold Parse_outcome.
  destruct s as [| c0 s0]; [ discriminate Hi | ].
  set (m := meaningful (c0 :: s0)) in *. cbv zeta.
  destruct (forallb allowed (take 12 m)); cbn [negb]; [ | eauto ].
  destruct (10 <? length m)%nat eqn:H10.
  { apply Nat.ltb_lt in H10. split; [ eauto | lia ]. }
  destruct (length m <? 5)%nat eqn:H5.
  { apply Nat.ltb_lt in H5. split; [ eauto | lia ]. }
  rewrite Hex. eauto.
Qed.

Lemma misplaced_K_rejected_witness :
  Parse (str "12.34k.678-5") = Err ErrInvalidFormat /\
  Parse (str "K2.345.678-5") = Err ErrInvalidFormat.
Proof.
  split.
  - apply (misplaced_K_rejected (str "12.34k.678-5") 4 "k");
      [ reflexivity | reflexivity | vm_compute; lia | vm_compute; lia ].
  - apply (misplaced_K_rejected (str "K2.345.678-5") 0 "K");
      [ reflexivity | reflexivity | vm_compute; lia | vm_compute; lia ].
Defined.

(** C5 as stated fails below the minimum length: in ["1K-2"] the ['K'] is
    not in the last position, and the error is [ErrTooShort]. *)
Lemma misplaced_K_too_short :
  meaningful (str "1K-2") !! 1%nat = Some "K"%char /\
  is_K "K" = true /\
  (1 + 1 < length (meaningful (str "1K-2")))%nat /\
  Parse (str "1K-2") = Err ErrTooShort /\
  Parse (str "1K-2") <> Err ErrInvalidFormat.
Proof.
  repeat apply conj; try reflexivity.
  - vm_compute. lia.
  - vm_compute. discriminate.
Qed.

(** ** The Complete style *)

(** C6, as amended. For every identifier with [Number >= 0],
    [RUT.Format] in the Complete style writes the decimal digits of
    [Number] (the numeral of [strconv.Itoa]: digits only, denoting
    [Number]) with a period after a digit exactly when the number of digits
    remaining after it is positive and a multiple of three, then a hyphen
    and the check character; and [Format "123456785" Complete] is
    ["12.345.678-5"]. *)
Theorem Format_Complete_grouping (r : RUT) :
  0 <= Number r ->
  forallb is_digit (Itoa (Number r)) = true /\
  dec_value (Itoa (Number r)) = Number r /\
  RUT_Format r FormatComplete =
  group_thousands (Itoa (Number r)) ++ ["-"%char; DV r] /\
  Format (str "123456785") FormatComplete = Ok (str "12.345.678-5").
Proof.
  intros Hr. repeat apply conj.
  - rewrite Itoa_nonneg by exact Hr. apply utoa_forallb_digit, Hr.
  - rewrite Itoa_nonneg by exact Hr. apply dec_value_utoa, Hr.
  - apply RUT_Format_Complete.
  - vm_compute. reflexivity.
Qed.

Lemma Format_Complete_grouping_witness :
  forallb is_digit (str "12345678") = true /\
  dec_value (str "12345678") = 12345678 /\
  RUT_Format (mkRUT 12345678 "5") FormatComplete =
  group_thousands (str "12345678") ++ ["-"%char; "5"%char] /\
  Format (str "123456785") FormatComplete = Ok (str "12.345.678-5").
Proof.
  apply (Format_Complete_grouping (mkRUT 12345678 "5")). simpl. lia.
Defined.

(** C6 as stated fails for a negative [Number], which the type [int]
    admits: the rendering of [(-123456, '5')] starts with the sign followed
    by a period, so it is not the grouping of any string of digits. *)
Lemma Format_Complete_negative_number :
  RUT_Format (mkRUT (-123456) "5") FormatComplete = str "-.123.456-5" /\
  ~ (exists digits,
        forallb is_digit digits = true /\
        RUT_Format (mkRUT (-123456) "5") FormatComplete =
        group_thousands digits ++ ["-"%char; "5"%char]).
Proof.
  split; [ vm_compute; reflexivity | ].
  intros (digits & Hd & E).
  change (RUT_Format (mkRUT (-123456) "5") FormatComplete)
    with ("-"%char :: str ".123.456-5") in E.
  destruct digits as [| d digits].
  - discriminate E.
  - cbn [group_thousands] in E. cbv zeta in E.
    assert (Hd0 : d = "-"%char).
    { destruct ((0 <? length digits)%nat && (length digits mod 3 =? 0)%nat);
        cbn [app] in E; injection E as E0 _; congruence. }
    subst d. discriminate Hd.
Qed.

(** [RUT.Format] does not look at the sign: for a negative [Number], which
    no identifier of the specification has, the same rule runs over the
    numeral with its ['-']. *)
Example Format_Complete_negative :
  RUT_Format (mkRUT (-1234) "5") FormatComplete = str "-1.234-5" /\
  RUT_Format (mkRUT (-123456) "5") FormatComplete = str "-.123.456-5".
Proof. vm_compute. split; reflexivity. Qed.

(** ** The order of the errors *)

(** C7, as amended. [Parse] reports the empty input first; then, during
    the scan, a character outside the allowed alphabet among the first
    twelve meaningful characters ([ErrInvalidFormat]); then more than ten
    meaningful characters ([ErrTooLong]); then fewer than five
    ([ErrTooShort]); then a misplaced ['K'] ([ErrInvalidFormat]).  In
    particular a non-empty input with fewer than 5 meaningful characters,
    one of them outside the allowed alphabet, yields [ErrInvalidFormat]. *)
Theorem Parse_error_priority (s : list byte) :
  (s = [] -> Parse s = Err ErrEmptyRUT) /\
  (s <> [] -> forallb allowed (take 12 (meaningful s)) = false ->
   Parse s = Err ErrInvalidFormat) /\
  (s <> [] -> forallb allowed (take 12 (meaningful s)) = true ->
   (10 < length (meaningful s))%nat -> Parse s = Err ErrTooLong) /\
  (s <> [] -> forallb allowed (meaningful s) = true ->
   (length (meaningful s) < 5)%nat -> Parse s = Err ErrTooShort) /\
  (s <> [] -> forallb allowed (meaningful s) = true ->
   (5 <= length (meaningful s) <= 10)%nat ->
   existsb is_K (take (length (meaningful s) - 1) (meaningful s)) = true ->
   Parse s = Err ErrInvalidFormat) /\
  (s <> [] -> (length (meaningful s) < 5)%nat ->
   forallb allowed (meaningful s) = false ->
   Parse s = Err ErrInvalidFormat).
Proof.
  assert (Hinv : s <> [] ->
                 forallb allowed (take 12 (meaningful s)) = false ->
                 Parse s = Err ErrInvalidFormat).
  { intros Hs Hbad. rewrite Parse_decides. unfold Parse_outcome.
    destruct s; [ congruence | ]. cbv zeta. rewrite Hbad. reflexivity. }
  repeat apply conj.
  - intros ->. reflexivity.
  - exact Hinv.
  - intros Hs Hall Hlen. rewrite Parse_decides. unfold Parse_outcome.
    destruct s; [ congruence | ]. cbv zeta. rewrite Hall. cbn [negb].
    rewrite (proj2 (Nat.ltb_lt _ _)) by exact Hlen. reflexivity.
  - intros Hs Hall. apply (Parse_by_length s Hs Hall).
  - intros Hs Hall. apply (Parse_by_length s Hs Hall).
  - intros Hs Hlen Hbad. apply Hinv; [ exact Hs | ].
    rewrite take_ge by lia. exact Hbad.
Qed.

Lemma Parse_error_priority_witness :
  Parse (str "12a") = Err ErrInvalidFormat /\
  Parse (str "-.-") = Err ErrTooShort /\
  Parse (str "12345678901") = Err ErrTooLong.
Proof.
  repeat apply conj.
  - destruct (Parse_error_priority (str "12a")) as (_ & _ & _ & _ & _ & H).
    apply H; [ discriminate | vm_compute; lia | reflexivity ].
  - destruct (Parse_error_priority (str "-.-")) as (_ & _ & _ & H & _).
    apply H; [ discriminate | reflexivity | vm_compute; lia ].
  - destruct (Parse_error_priority (str "12345678901")) as (_ & _ & H & _).
    apply H; [ discriminate | reflexivity | vm_compute; lia ].
Defined.

(** C7 as stated fails: ["12a"] is not empty, has fewer than 5 meaningful
    characters and contains a character outside the alphabet; the error is
    [ErrInvalidFormat], not [ErrTooShort]. *)
Lemma invalid_character_before_too_short :
  str "12a" <> [] /\
  (length (meaningful (str "12a")) < 5)%nat /\
  forallb allowed (meaningful (str "12a")) = false /\
  Parse (str "12a") = Err ErrInvalidFormat /\
  Parse (str "12a") <> Err ErrTooShort.
Proof.
  repeat apply conj; try reflexivity; try discriminate.
  vm_compute. lia.
Qed.

(** ** Separators only *)

Lemma meaningful_separators (s : list byte) :
  Forall (fun c => c = "."%char \/ c = "-"%char) s -> meaningful s = [].
Proof.
  induction 1 as [| c s Hc _ IH]; [ reflexivity | ].
  rewrite meaningful_cons, IH.
  destruct Hc as [-> | ->]; reflexivity.
Qed.

(** C8. A non-empty input made only of the separators ['.'] and ['-']
    yields [ErrTooShort], not [ErrEmptyRUT]. *)
Theorem separators_only_too_short (s : list byte) :
  s <> [] -> Forall (fun c => c = "."%char \/ c = "-"%char) s ->
  Parse s = Err ErrTooShort /\ Parse s <> Err ErrEmptyRUT.
Proof.
  intros Hs Hsep. pose proof (meaningful_separators s Hsep) as Hm.
  assert (HP : Parse s = Err ErrTooShort).
  { apply (Parse_by_length s Hs); rewrite Hm; [ reflexivity | simpl; lia ]. }
  split; [ exact HP | ]. rewrite HP. discriminate.
Qed.

Lemma separators_only_too_short_witness :
  Parse (str "-.-") = Err ErrTooShort /\ Parse (str "-.-") <> Err ErrEmptyRUT.
Proof.
  apply (separators_only_too_short (str "-.-")).
  - discriminate.
  - unfold str. simpl.
    repeat (apply List.Forall_cons;
            [ (left; reflexivity) || (right; reflexivity) | ]).
    apply List.Forall_nil.
Defined.

(** ** What Parse returns *)

(** C9. Whenever [Parse] succeeds, the body was read from at most nine
    digits, so [0 <= Number <= 999999999], and [DV] is a digit or an
    uppercase ['K'].  [Number] can be 0: ["0000-0"] parses to [(0, '0')],
    which [RUT.Validate] rejects. *)
Theorem Parse_result_invariant :
  (forall s r,
      Parse s = Ok r ->
      0 <= Number r <= 999999999 /\
      is_check (DV r) = true /\
      exists ds, forallb is_digit ds = true /\ (length ds <= 9)%nat /\
                 Number r = dec_value ds) /\
  Parse (str "0000-0") = Ok (mkRUT 0 "0") /\
  RUT_Validate (mkRUT 0 "0") = false.
Proof.
  repeat apply conj; try reflexivity.
  intros s r HP.
  destruct (Parse_Ok_inv s r HP) as (ds & c & _ & Hds & Hlen & Hc & ->).
  cbn [Number DV]. pose proof (dec_value_bound ds Hds) as Hb.
  assert (10 ^ Z.of_nat (length ds) <= 10 ^ 9)
    by (apply Z.pow_le_mono_r; lia).
  change (10 ^ 9) with 1000000000 in *.
  repeat apply conj; try lia.
  - apply normalize_is_check, Hc.
  - exists ds. repeat split; [ exact Hds | lia ].
Qed.

(** ** Leading zeros *)

Lemma RUT_Format_Escaped (r : RUT) :
  RUT_Format r FormatEscaped = Itoa (Number r) ++ [DV r].
Proof. reflexivity. Qed.

Lemma dec_value_leading_zero (ds : list byte) :
  dec_value ("0"%char :: ds) = dec_value ds.
Proof. reflexivity. Qed.

(** C10. [Parse] accepts a body with leading zeros and drops them in
    [Number]: whenever the first meaningful character of an accepted input
    is ['0'], the Escaped rendering of the result is shorter than, hence
    different from, the input without its separators.  For ["00.010-9"]
    the result is [(10, '9')], rendered ["109"], which [Parse] rejects. *)
Theorem leading_zeros_discarded :
  (forall s r,
      Parse s = Ok r -> nth 0 (meaningful s) zero = "0"%char ->
      (length (RUT_Format r FormatEscaped) < length (meaningful s))%nat /\
      RUT_Format r FormatEscaped <> meaningful s) /\
  Parse (str "00.010-9") = Ok (mkRUT 10 "9") /\
  meaningful (str "00.010-9") = str "000109" /\
  RUT_Format (mkRUT 10 "9") FormatEscaped = str "109" /\
  Parse (RUT_Format (mkRUT 10 "9") FormatEscaped) = Err ErrTooShort.
Proof.
  repeat apply conj; try reflexivity.
  intros s r HP Hzero.
  assert (Hshort : (length (RUT_Format r FormatEscaped)
                    < length (meaningful s))%nat).
  { destruct (Parse_Ok_inv s r HP) as (ds & c & Hm & Hds & Hlen & _ & ->).
    destruct ds as [| d ds]; [ simpl in Hlen; lia | ].
    rewrite Hm in Hzero. cbn [app nth] in Hzero. subst d.
    cbn [forallb] in Hds. apply andb_true_iff in Hds as [_ Hds].
    cbn [length] in Hlen.
    rewrite RUT_Format_Escaped. cbn [Number DV].
    rewrite dec_value_leading_zero.
    pose proof (dec_value_bound ds Hds) as Hb.
    rewrite Itoa_nonneg by lia.
    pose proof (utoa_length_le (length ds - 1) (dec_value ds)) as Hle.
    replace (S (length ds - 1)) with (length ds) in Hle by lia.
    specialize (Hle Hb).
    rewrite Hm, !length_app. cbn [length]. lia. }
  split; [ exact Hshort | ].
  intros E. rewrite E in Hshort. lia.
Qed.

(** * Further properties of the code *)

Example test_RUT_String :
  RUT_String (mkRUT 12345678 "5") = str "12.345.678-5".
Proof. vm_compute. reflexivity. Qed.

Example test_CalculateDV :
  map CalculateDV [12345678; 7654321; 11111111; 1009; 14555848; 0]
  = ["5"; "6"; "1"; "K"; "4"; "0"]%char.
Proof. vm_compute. reflexivity. Qed.

(** ** isValidRUTChar *)

(** [isValidRUTChar] accepts exactly the twelve bytes ['0'..'9'], ['k'] and
    ['K'].  When it accepts, the byte it returns is a digit or an upper-case
    ['K'], it is the byte itself unless that was ['k'], and
    [isValidRUTChar] accepts it again unchanged; when it rejects, it
    returns the byte 0. *)
Theorem isValidRUTChar_classes (c : byte) :
  (snd (isValidRUTChar c) = true <->
   48 <= byte_val c <= 57 \/ byte_val c = 107 \/ byte_val c = 75) /\
  (snd (isValidRUTChar c) = true ->
   is_check (fst (isValidRUTChar c)) = true /\
   fst (isValidRUTChar c) = upper_K c /\
   isValidRUTChar (fst (isValidRUTChar c)) = (fst (isValidRUTChar c), true)) /\
  (snd (isValidRUTChar c) = false -> fst (isValidRUTChar c) = zero).
Proof.
  rewrite isValidRUTChar_eq. cbn [fst snd]. split; [ | split ].
  - unfold allowed. rewrite orb_true_iff, is_digit_val, is_K_val. tauto.
  - intros Ha. pose proof (normalize_is_check c Ha) as Hc.
    repeat apply conj.
    + exact Hc.
    + unfold upper_K. destruct (is_K c) eqn:HK.
      * rewrite normalize_K by exact HK.
        destruct (byte_eq c "k") eqn:Ek; [ reflexivity | ].
        unfold is_K in HK. rewrite Ek in HK. cbn [orb] in HK.
        apply byte_eq_true in HK. congruence.
      * rewrite normalize_digit by (apply allowed_not_K; assumption).
        unfold is_K in HK. apply orb_false_iff in HK as [-> _]. reflexivity.
    + rewrite isValidRUTChar_eq.
      rewrite (is_check_normalize _ Hc), (is_check_allowed _ Hc). reflexivity.
  - unfold normalize, isValidRUTChar, allowed, is_digit, is_K.
    destruct (byte_le "0" c && byte_le c "9"); [ discriminate | ].
    destruct (byte_eq c "k" || byte_eq c "K"); [ discriminate | reflexivity ].
Qed.

(** ** Separators and case *)

Lemma Parse_same_meaningful (s t : list byte) :
  s <> [] -> t <> [] -> meaningful s = meaningful t -> Parse s = Parse t.
Proof.
  intros Hs Ht Hm. rewrite !Parse_decides. unfold Parse_outcome.
  destruct s; [ congruence | ]. destruct t; [ congruence | ].
  rewrite Hm. reflexivity.
Qed.

(** Separators carry no information: two non-empty inputs with the same
    meaningful characters get the same result from [Parse], from
    [Validate] and from [Format] in every style, errors included. *)
Theorem separators_ignored (s t : list byte) :
  s <> [] -> t <> [] -> meaningful s = meaningful t ->
  Parse s = Parse t /\
  Validate s = Validate t /\
  forall style, Format s style = Format t style.
Proof.
  intros Hs Ht Hm. pose proof (Parse_same_meaningful s t Hs Ht Hm) as HP.
  unfold Validate, Format. rewrite HP. auto.
Qed.

Lemma separators_ignored_witness :
  Parse (str "1.2.3.4.5.6.7.8-5") = Parse (str "12-345-678.5") /\
  Validate (str "1.2.3.4.5.6.7.8-5") = Validate (str "12-345-678.5") /\
  forall style,
    Format (str "1.2.3.4.5.6.7.8-5") style = Format (str "12-345-678.5") style.
Proof.
  apply (separators_ignored (str "1.2.3.4.5.6.7.8-5") (str "12-345-678.5"));
    [ discriminate | discriminate | reflexivity ].
Defined.

Lemma upper_K_cases (c : byte) :
  (c = "k"%char /\ upper_K c = "K"%char) \/ (c <> "k"%char /\ upper_K c = c).
Proof.
  unfold upper_K. destruct (byte_eq c "k") eqn:E.
  - left. apply byte_eq_true in E. auto.
  - right. apply byte_eq_false in E. auto.
Qed.

Lemma upper_K_classes (c : byte) :
  is_sep (upper_K c) = is_sep c /\
  allowed (upper_K c) = allowed c /\
  is_K (upper_K c) = is_K c /\
  normalize (upper_K c) = normalize c.
Proof.
  destruct (upper_K_cases c) as [[-> ->] | [_ ->]]; repeat split; reflexivity.
Qed.

Lemma meaningful_upper_K (s : list byte) :
  meaningful (map upper_K s) = map upper_K (meaningful s).
Proof.
  induction s as [| c s IH]; [ reflexivity | ].
  cbn [map]. rewrite !meaningful_cons, IH.
  rewrite (proj1 (upper_K_classes c)).
  destruct (is_sep c); reflexivity.
Qed.

Lemma forallb_allowed_upper_K (l : list byte) :
  forallb allowed (map upper_K l) = forallb allowed l.
Proof.
  induction l as [| c l IH]; [ reflexivity | ].
  cbn [map forallb]. rewrite IH.
  rewrite (proj1 (proj2 (upper_K_classes c))). reflexivity.
Qed.

Lemma existsb_K_upper_K (l : list byte) :
  existsb is_K (map upper_K l) = existsb is_K l.
Proof.
  induction l as [| c l IH]; [ reflexivity | ].
  cbn [map existsb]. rewrite IH.
  rewrite (proj1 (proj2 (proj2 (upper_K_classes c)))). reflexivity.
Qed.

Lemma upper_K_no_K (l : list byte) :
  existsb is_K l = false -> map upper_K l = l.
Proof.
  induction l as [| c l IH]; [ reflexivity | ].
  cbn [map existsb]. intros H. apply orb_false_iff in H as [Hc H].
  rewrite IH by exact H. f_equal.
  destruct (upper_K_cases c) as [[-> _] | [_ E]]; [ discriminate Hc | exact E ].
Qed.

(** [Parse], [Validate] and [Format] do not distinguish ['k'] from ['K']:
    writing every ['k'] of an input in upper case changes none of their
    results. *)
Theorem check_letter_case_insensitive (s : list byte) :
  Parse (map upper_K s) = Parse s /\
  Validate (map upper_K s) = Validate s /\
  forall style, Format (map upper_K s) style = Format s style.
Proof.
  assert (HP : Parse (map upper_K s) = Parse s).
  { rewrite !Parse_decides. unfold Parse_outcome.
    destruct s as [| c0 s0]; [ reflexivity | ].
    cbn [map]. change (upper_K c0 :: map upper_K s0)
      with (map upper_K (c0 :: s0)).
    rewrite meaningful_upper_K.
    set (m := meaningful (c0 :: s0)). cbv zeta.
    rewrite List.length_map, !List.firstn_map.
    rewrite forallb_allowed_upper_K, existsb_K_upper_K.
    destruct (negb (forallb allowed (take 12 m))); [ reflexivity | ].
    destruct (10 <? length m)%nat; [ reflexivity | ].
    destruct (length m <? 5)%nat; [ reflexivity | ].
    destruct (existsb is_K (take (length m - 1) m)) eqn:HK; [ reflexivity | ].
    rewrite (upper_K_no_K _ HK).
    change zero with (upper_K zero) at 1. rewrite List.map_nth.
    rewrite (proj2 (proj2 (proj2 (upper_K_classes _)))). reflexivity. }
  unfold Validate, Format. rewrite HP. auto.
Qed.

(** ** Rendering and parsing again *)

Lemma utoa_length_short (u : Z) :
  0 <= u < 1000 -> (length (utoa u) <= 3)%nat.
Proof.
  intros Hu. apply (utoa_length_le 2).
  change (10 ^ Z.of_nat 3) with 1000. exact Hu.
Qed.

(** The styles differ in their separators only: for a non-negative
    [Number] and a [DV] that is not itself a separator, removing the
    separators from the rendering in any style (one of the three
    constants, or any other value, which renders as Complete) leaves
    the Escaped rendering. *)
Theorem styles_differ_in_separators (r : RUT) (style : FormatStyle) :
  0 <= Number r -> is_sep (DV r) = false ->
  meaningful (RUT_Format r style) = RUT_Format r FormatEscaped.
Proof.
  intros Hn Hsep. rewrite RUT_Format_Escaped, Itoa_nonneg by exact Hn.
  pose proof (meaningful_digits _ (utoa_forallb_digit _ Hn)) as Hnum.
  assert (Hdv : meaningful [DV r] = [DV r])
    by (rewrite meaningful_cons, Hsep; reflexivity).
  assert (Hdash : meaningful ["-"%char; DV r] = [DV r])
    by (rewrite meaningful_cons; exact Hdv).
  assert (Hcomplete :
            meaningful (group_thousands (utoa (Number r)) ++ ["-"%char; DV r])
            = utoa (Number r) ++ [DV r])
    by (rewrite meaningful_app, meaningful_group, Hnum, Hdash; reflexivity).
  unfold RUT_Format. rewrite Itoa_nonneg by exact Hn.
  unfold WriteByte, WriteString. cbv zeta. cbn [app].
  destruct (style =? FormatEscaped).
  { rewrite meaningful_app, Hnum, Hdv. reflexivity. }
  destruct (style =? FormatWithDash).
  { rewrite <- app_assoc, meaningful_app, Hnum. cbn [app].
    rewrite Hdash. reflexivity. }
  rewrite complete_loop_group by lia. cbn [app].
  rewrite <- app_assoc. exact Hcomplete.
Qed.

Lemma styles_differ_in_separators_witness :
  meaningful (RUT_Format (mkRUT 12345678 "5") FormatComplete) = str "123456785" /\
  meaningful (RUT_Format (mkRUT 12345678 "5") FormatWithDash) = str "123456785" /\
  meaningful (RUT_Format (mkRUT 12345678 "5") 7) = str "123456785".
Proof.
  repeat apply conj.
  - apply (styles_differ_in_separators (mkRUT 12345678 "5") FormatComplete);
      [ simpl; lia | reflexivity ].
  - apply (styles_differ_in_separators (mkRUT 12345678 "5") FormatWithDash);
      [ simpl; lia | reflexivity ].
  - apply (styles_differ_in_separators (mkRUT 12345678 "5") 7);
      [ simpl; lia | reflexivity ].
Defined.

(** What [Parse] makes of the rendering of an identifier it returned:
    the same identifier when [Number] has at least four digits, and
    [ErrTooShort] otherwise (leading zeros of the input are not
    rendered), in every style. *)
Theorem Parse_of_rendering (s : list byte) (r : RUT) (style : FormatStyle) :
  Parse s = Ok r ->
  (1000 <= Number r -> Parse (RUT_Format r style) = Ok r) /\
  (Number r < 1000 -> Parse (RUT_Format r style) = Err ErrTooShort).
Proof.
  intros HP.
  destruct (Parse_Ok_inv s r HP) as (ds & c & _ & Hds & Hlen & Hc & ->).
  cbn [Number]. pose proof (dec_value_bound ds Hds) as Hb.
  pose proof (normalize_is_check c Hc) as Hcheck.
  assert (Hpow : 10 ^ Z.of_nat (length ds) <= 10 ^ 9)
    by (apply Z.pow_le_mono_r; lia).
  change (10 ^ 9) with 1000000000 in Hpow.
  split; intros Hn.
  - apply Parse_RUT_Format; [ lia | exact Hcheck ].
  - set (r := mkRUT (dec_value ds) (normalize c)).
    assert (Hm : meaningful (RUT_Format r style)
                 = utoa (dec_value ds) ++ [normalize c])
      by (apply (RUT_Format_meaningful r); [ apply Hb | exact Hcheck ]).
    assert (Hne : RUT_Format r style <> []).
    { apply meaningful_nonempty. rewrite Hm.
      destruct (utoa (dec_value ds)); discriminate. }
    apply (Parse_by_length _ Hne).
    + rewrite Hm, forallb_app. cbn [forallb].
      rewrite (digits_allowed _ (utoa_forallb_digit _ (proj1 Hb))).
      rewrite (is_check_allowed _ Hcheck). reflexivity.
    + rewrite Hm, length_app. cbn [length].
      pose proof (utoa_length_short (dec_value ds) ltac:(lia)). lia.
Qed.

Lemma Parse_of_rendering_witness :
  Parse (RUT_Format (mkRUT 1009 "K") FormatEscaped) = Ok (mkRUT 1009 "K") /\
  Parse (RUT_Format (mkRUT 10 "9") FormatComplete) = Err ErrTooShort.
Proof.
  split.
  - apply (Parse_of_rendering (str "1.009-k") (mkRUT 1009 "K") FormatEscaped);
      [ reflexivity | simpl; lia ].
  - apply (Parse_of_rendering (str "00.010-9") (mkRUT 10 "9") FormatComplete);
      [ reflexivity | simpl; lia ].
Defined.

(** [Format] normalizes: when [Format s style] succeeds and the number
    parsed from [s] has at least four digits, formatting the output again,
    in any style, gives what formatting [s] in that style gives; in
    particular the output is a fixed point of [Format] in its own style. *)
Theorem Format_normalizes (s t : list byte) (r : RUT) (style : FormatStyle) :
  Parse s = Ok r -> 1000 <= Number r -> Format s style = Ok t ->
  (forall style', Format t style' = Format s style') /\
  Format t style = Ok t.
Proof.
  intros HP Hn HF. unfold Format in HF. rewrite HP in HF.
  injection HF as <-.
  destruct (Parse_Ok_inv s r HP) as (ds & c & _ & Hds & Hlen & Hc & ->).
  cbn [Number] in Hn. pose proof (dec_value_bound ds Hds) as Hb.
  assert (Hpow : 10 ^ Z.of_nat (length ds) <= 10 ^ 9)
    by (apply Z.pow_le_mono_r; lia).
  change (10 ^ 9) with 1000000000 in Hpow.
  assert (Hre : Parse (RUT_Format (mkRUT (dec_value ds) (normalize c)) style)
                = Ok (mkRUT (dec_value ds) (normalize c)))
    by (apply Parse_RUT_Format; [ lia | apply normalize_is_check, Hc ]).
  unfold Format. rewrite Hre, HP. auto.
Qed.

Lemma Format_normalizes_witness :
  (forall style', Format (str "12.345.678-5") style'
                  = Format (str "0123-45678.5") style') /\
  Format (str "12.345.678-5") FormatComplete = Ok (str "12.345.678-5").
Proof.
  apply (Format_normalizes (str "0123-45678.5") (str "12.345.678-5")
           (mkRUT 12345678 "5") FormatComplete);
    [ reflexivity | simpl; lia | reflexivity ].
Defined.

(** ** Validation of texts *)

(** On a well-formed text (from four to nine digits and one allowed
    character, with separators anywhere) [Validate] is true exactly when
    the digits denote a positive number and the normalized last character
    is its check digit: leading zeros do not matter, an all-zero body is
    never valid, and exactly one normalized check character validates. *)
Theorem Validate_well_formed (s ds : list byte) (c : byte) :
  meaningful s = ds ++ [c] ->
  forallb is_digit ds = true -> (4 <= length ds <= 9)%nat ->
  allowed c = true ->
  (Validate s = true <->
   0 < dec_value ds /\ normalize c = CalculateDV (dec_value ds)).
Proof.
  intros Hm Hds Hlen Hc. unfold Validate.
  rewrite (Parse_digits_check s ds c Hm Hds Hlen Hc).
  unfold RUT_Validate. cbn [Number DV].
  destruct (dec_value ds <=? 0) eqn:E.
  - apply Z.leb_le in E. split; [ discriminate | lia ].
  - apply Z.leb_gt in E. rewrite byte_eq_true. tauto.
Qed.

Lemma Validate_well_formed_witness :
  Validate (str "0.001.009-k") = true <->
  0 < dec_value (str "0001009") /\
  normalize "k" = CalculateDV (dec_value (str "0001009")).
Proof.
  apply (Validate_well_formed (str "0.001.009-k") (str "0001009") "k");
    [ reflexivity | reflexivity | vm_compute; lia | reflexivity ].
Defined.

(** An identifier built from a body of four to nine digits and the check
    digit [CalculateDV] computes for it validates in every rendering. *)
Theorem Validate_generated (body : Z) (style : FormatStyle) :
  1000 <= body <= 999999999 ->
  Validate (RUT_Format (mkRUT body (CalculateDV body)) style) = true.
Proof.
  intros Hb. unfold Validate.
  assert (Hmax : 999999999 <= maxInt) by (vm_compute; discriminate).
  rewrite Parse_RUT_Format
    by (try apply CalculateDV_is_check; lia).
  unfold RUT_Validate. cbn [Number DV].
  rewrite (proj2 (Z.leb_gt _ _)) by lia. apply byte_eq_true. reflexivity.
Qed.

Lemma Validate_generated_witness :
  Validate (RUT_Format (mkRUT 7654321 (CalculateDV 7654321)) FormatWithDash)
  = true.
Proof. apply (Validate_generated 7654321 FormatWithDash). lia. Defined.

(** ** The range of CalculateDV *)

(** For every [int], [CalculateDV] returns a digit or an upper-case ['K'],
    never another byte; for zero and for every negative number (the loop
    does not run) it returns ['0']. *)
Theorem CalculateDV_range (number : Z) :
  in_int number ->
  is_check (CalculateDV number) = true /\
  (number <= 0 -> CalculateDV number = "0"%char).
Proof.
  intros [Hlo Hhi].
  assert (Hneg : number <= 0 -> CalculateDV number = "0"%char).
  { intros Hn. unfold CalculateDV.
    destruct (number =? 0); [ reflexivity | ].
    rewrite dv_loop_done by exact Hn. reflexivity. }
  split; [ | exact Hneg ].
  destruct (Z_le_gt_dec number 0) as [Hn | Hn].
  - rewrite (Hneg Hn). reflexivity.
  - apply CalculateDV_is_check. lia.
Qed.

Lemma CalculateDV_range_witness :
  is_check (CalculateDV (-12345678)) = true /\
  (-12345678 <= 0 -> CalculateDV (-12345678) = "0"%char).
Proof.
  apply (CalculateDV_range (-12345678)).
  vm_compute. split; discriminate.
Defined.

(** ** The size of the renderings *)

Lemma thirds_step (r : nat) :
  (r / 3 = (r - 1) / 3 + (if (0 <? r) && (r mod 3 =? 0) then 1 else 0))%nat.
Proof.
  destruct r as [| r]; [ reflexivity | ].
  replace (S r - 1)%nat with r by lia. cbn [Nat.ltb Nat.leb andb].
  pose proof (Nat.div_mod_eq (S r) 3) as H1.
  pose proof (Nat.div_mod_eq r 3) as H2.
  pose proof (Nat.mod_upper_bound (S r) 3 ltac:(lia)) as B1.
  pose proof (Nat.mod_upper_bound r 3 ltac:(lia)) as B2.
  destruct (S r mod 3 =? 0)%nat eqn:E.
  - apply Nat.eqb_eq in E. lia.
  - apply Nat.eqb_neq in E. lia.
Qed.

Lemma length_group_thousands (l : list byte) :
  length (group_thousands l) = (length l + (length l - 1) / 3)%nat.
Proof.
  induction l as [| d rest IH]; [ reflexivity | ].
  cbn [group_thousands]. cbv zeta.
  pose proof (thirds_step (length rest)) as Hstep.
  replace (length (d :: rest) - 1)%nat with (length rest)
    by (cbn [length]; lia).
  destruct ((0 <? length rest)%nat && (length rest mod 3 =? 0)%nat);
    cbn [length]; rewrite IH; lia.
Qed.

(** The number of bytes each style writes, for any identifier: with
    [d] the length of the numeral of [Number], Escaped writes [d + 1]
    bytes, WithDash [d + 2], and Complete (and [String]) [d + 2] plus one
    period for each complete group of three digits after the first digit,
    [(d - 1) / 3] of them. *)
Theorem rendering_lengths (r : RUT) :
  length (RUT_Format r FormatEscaped) = (length (Itoa (Number r)) + 1)%nat /\
  length (RUT_Format r FormatWithDash) = (length (Itoa (Number r)) + 2)%nat /\
  length (RUT_Format r FormatComplete)
  = (length (Itoa (Number r)) + (length (Itoa (Number r)) - 1) / 3 + 2)%nat /\
  RUT_String r = RUT_Format r FormatComplete.
Proof.
  repeat apply conj.
  - rewrite RUT_Format_Escaped, length_app. reflexivity.
  - unfold RUT_Format.
    change (FormatWithDash =? FormatEscaped) with false.
    change (FormatWithDash =? FormatWithDash) with true.
    cbv iota zeta. unfold WriteByte, WriteString. cbn [app].
    rewrite !length_app. cbn [length]. lia.
  - rewrite RUT_Format_Complete, length_app, length_group_thousands.
    reflexivity.
  - reflexivity.
Qed.

(** The Complete rendering ([String]) of an identifier [Parse] returned
    has at most 13 bytes.  It fits the 12 bytes the code reserves
    ([b.Grow(12)]) when [Number] has at most eight digits, and has exactly
    13 bytes when [Number] has nine. *)
Theorem RUT_String_size (s : list byte) (r : RUT) :
  Parse s = Ok r ->
  (length (RUT_String r) <= 13)%nat /\
  (Number r <= 99999999 -> (length (RUT_String r) <= 12)%nat) /\
  (100000000 <= Number r -> length (RUT_String r) = 13%nat).
Proof.
  intros HP.
  destruct (Parse_Ok_inv s r HP) as (ds & c & _ & Hds & Hlen & _ & ->).
  unfold RUT_String. rewrite RUT_Format_Complete, length_app.
  rewrite length_group_thousands. cbn [Number DV length].
  pose proof (dec_value_bound ds Hds) as Hb.
  assert (Hpow : 10 ^ Z.of_nat (length ds) <= 10 ^ 9)
    by (apply Z.pow_le_mono_r; lia).
  change (10 ^ 9) with 1000000000 in Hpow.
  rewrite Itoa_nonneg by lia.
  set (v := dec_value ds) in *.
  pose proof (utoa_length_le 8 v ltac:(change (10 ^ Z.of_nat 9)
                                         with 1000000000; lia)) as H9.
  assert (Hthird : forall d, (d <= 9)%nat -> (d + (d - 1) / 3 + 2 <= 13)%nat /\
                                            ((d <= 8)%nat ->
                                             (d + (d - 1) / 3 + 2 <= 12)%nat) /\
                                            (d = 9%nat ->
                                             (d + (d - 1) / 3 + 2)%nat = 13%nat)).
  { intros d Hd.
    destruct d as [|[|[|[|[|[|[|[|[|[|d]]]]]]]]]];
      cbn; repeat split; intros; lia. }
  destruct (Hthird (length (utoa v)) H9) as (H13 & H12 & Heq).
  repeat apply conj.
  - exact H13.
  - intros Hsmall. apply H12. apply (utoa_length_le 7).
    change (10 ^ Z.of_nat 8) with 100000000. lia.
  - intros Hbig. apply Heq.
    pose proof (utoa_length_gt 8 v ltac:(change (10 ^ Z.of_nat 8)
                                           with 100000000; lia)). lia.
Qed.

Lemma RUT_String_size_witness :
  (length (RUT_String (mkRUT 123456789 "2")) <= 13)%nat /\
  (123456789 <= 99999999 ->
   (length (RUT_String (mkRUT 123456789 "2")) <= 12)%nat) /\
  (100000000 <= 123456789 ->
   length (RUT_String (mkRUT 123456789 "2")) = 13%nat).
Proof.
  apply (RUT_String_size (str "123.456.789-2") (mkRUT 123456789 "2")).
  reflexivity.
Defined.

(** ** What the check digit detects *)

Lemma CalculateDV_weighted (body : Z) :
  0 <= body <= maxInt ->
  CalculateDV body =
  check_character (11 - weighted_digit_sum 0 body mod 11) /\
  0 <= weighted_digit_sum 0 body.
Proof.
  intros [Hlo Hhi]. unfold weighted_digit_sum.
  destruct (Z.eq_dec body 0) as [-> | Hne].
  { rewrite rev_digits_small by lia. split; [ reflexivity | cbn; lia ]. }
  destruct (dv_loop_sum body ltac:(lia)) as [Hloop Hsum].
  unfold decimal_digits in Hloop, Hsum. rewrite Itoa_nonneg in Hloop, Hsum by lia.
  split; [ | exact Hsum ].
  unfold CalculateDV. rewrite (proj2 (Z.eqb_neq _ _) Hne).
  cbv zeta. rewrite Hloop.
  set (sum := weighted_sum 0 (rev (map decimal_digit (utoa body)))) in *.
  rewrite Z.rem_mod_nonneg by lia.
  pose proof (Z.mod_pos_bound sum 11 ltac:(lia)) as Hr.
  unfold int_sub. rewrite int_wrap_small by (apply small_int; lia).
  unfold check_character.
  destruct (11 - sum mod 11 =? 11); [ reflexivity | ].
  destruct (11 - sum mod 11 =? 10); [ reflexivity | ].
  unfold int_add. rewrite int_wrap_small
    by (apply small_int; change (byte_val "0") with 48; lia).
  unfold digit_char. f_equal. lia.
Qed.

Lemma check_character_val (a : Z) :
  1 <= a <= 11 ->
  byte_val (check_character a)
  = if a =? 11 then 48 else if a =? 10 then 75 else 48 + a.
Proof.
  intros Ha. unfold check_character.
  destruct (a =? 11) eqn:E11; [ reflexivity | ].
  destruct (a =? 10) eqn:E10; [ reflexivity | ].
  apply Z.eqb_neq in E11, E10. apply byte_val_digit_char. lia.
Qed.

Lemma check_character_inj (a b : Z) :
  1 <= a <= 11 -> 1 <= b <= 11 ->
  check_character a = check_character b -> a = b.
Proof.
  intros Ha Hb E. apply (f_equal byte_val) in E.
  rewrite !check_character_val in E by assumption.
  destruct (a =? 11) eqn:A11; destruct (b =? 11) eqn:B11;
    destruct (a =? 10) eqn:A10; destruct (b =? 10) eqn:B10;
    rewrite ?Z.eqb_eq, ?Z.eqb_neq in *; lia.
Qed.

Lemma div_mod_10 (y m : Z) :
  0 <= m < 10 -> (10 * y + m) mod 10 = m /\ (10 * y + m) / 10 = y.
Proof.
  intros Hm. split.
  - symmetry. apply (Z.mod_unique _ _ y); [ left; exact Hm | reflexivity ].
  - symmetry. apply (Z.div_unique _ _ _ m); [ left; exact Hm | reflexivity ].
Qed.

Lemma weighted_digit_sum_step (k : nat) (n : Z) :
  0 <= n ->
  weighted_digit_sum k n
  = n mod 10 * weight k + weighted_digit_sum (S k) (n / 10).
Proof.
  intros Hn. unfold weighted_digit_sum.
  destruct (Z_lt_dec n 10) as [Hlt | Hge].
  - rewrite (rev_digits_small n) by lia.
    rewrite Z.mod_small, Z.div_small by lia.
    rewrite (rev_digits_small 0) by lia. cbn [weighted_sum]. lia.
  - rewrite rev_digits_step by lia. reflexivity.
Qed.

(** The digit at position [k] contributes its value times the weight of
    that position, whatever the digits above and below it. *)
Lemma weighted_digit_sum_digit (k : nat) :
  forall (j : nat) (hi d lo : Z),
    0 <= hi -> 0 <= d <= 9 -> 0 <= lo < 10 ^ Z.of_nat k ->
    weighted_digit_sum j (hi * 10 ^ Z.of_nat (S k) + d * 10 ^ Z.of_nat k + lo)
    = weighted_digit_sum j (hi * 10 ^ Z.of_nat (S k) + lo)
      + d * weight (j + k).
Proof.
  induction k as [| k IH]; intros j hi d lo Hhi Hd Hlo.
  - change (10 ^ Z.of_nat 0) with 1 in *. change (10 ^ Z.of_nat 1) with 10.
    assert (lo = 0) by lia. subst lo.
    rewrite (weighted_digit_sum_step j (hi * 10 + d * 1 + 0)) by lia.
    rewrite (weighted_digit_sum_step j (hi * 10 + 0)) by lia.
    replace (hi * 10 + d * 1 + 0) with (10 * hi + d) by lia.
    replace (hi * 10 + 0) with (10 * hi + 0) by lia.
    destruct (div_mod_10 hi d ltac:(lia)) as [-> ->].
    destruct (div_mod_10 hi 0 ltac:(lia)) as [-> ->].
    rewrite Nat.add_0_r. lia.
  - assert (Hp : 0 < 10 ^ Z.of_nat k) by (apply Z.pow_pos_nonneg; lia).
    assert (E1 : 10 ^ Z.of_nat (S k) = 10 * 10 ^ Z.of_nat k)
      by (rewrite Nat2Z.inj_succ, Z.pow_succ_r by lia; reflexivity).
    assert (E2 : 10 ^ Z.of_nat (S (S k)) = 10 * 10 ^ Z.of_nat (S k))
      by (rewrite (Nat2Z.inj_succ (S k)), Z.pow_succ_r by lia; reflexivity).
    pose proof (Z.div_mod lo 10 ltac:(lia)) as Hlo10.
    pose proof (Z.mod_pos_bound lo 10 ltac:(lia)) as Hm.
    assert (Hq : 0 <= lo / 10 < 10 ^ Z.of_nat k).
    { split; [ apply Z.div_pos; lia | ].
      apply Z.div_lt_upper_bound; lia. }
    set (x := hi * 10 ^ Z.of_nat (S (S k)) + d * 10 ^ Z.of_nat (S k) + lo).
    set (x0 := hi * 10 ^ Z.of_nat (S (S k)) + lo).
    assert (Hx : x = 10 * (hi * 10 ^ Z.of_nat (S k) + d * 10 ^ Z.of_nat k
                           + lo / 10) + lo mod 10)
      by (unfold x; rewrite E2; rewrite E1 at 2; lia).
    assert (Hx0 : x0 = 10 * (hi * 10 ^ Z.of_nat (S k) + lo / 10) + lo mod 10)
      by (unfold x0; rewrite E2; lia).
    assert (Hxpos : 0 <= x) by (unfold x; nia).
    assert (Hx0pos : 0 <= x0) by (unfold x0; nia).
    rewrite (weighted_digit_sum_step j x), (weighted_digit_sum_step j x0)
      by assumption.
    rewrite Hx, Hx0.
    destruct (div_mod_10 (hi * 10 ^ Z.of_nat (S k) + d * 10 ^ Z.of_nat k
                          + lo / 10) (lo mod 10) Hm) as [-> ->].
    destruct (div_mod_10 (hi * 10 ^ Z.of_nat (S k) + lo / 10)
                         (lo mod 10) Hm) as [-> ->].
    rewrite (IH (S j) hi d (lo / 10)) by assumption.
    replace (j + S k)%nat with (S j + k)%nat by lia. lia.
Qed.

Lemma weight_succ (k : nat) :
  weight (S k) - weight k = 1 \/ weight (S k) - weight k = -5.
Proof.
  unfold weight.
  replace (S k mod 6)%nat with ((k mod 6 + 1) mod 6)%nat
    by (rewrite Nat.Div0.add_mod_idemp_l; f_equal; lia).
  pose proof (Nat.mod_upper_bound k 6 ltac:(lia)) as Hk.
  destruct (k mod 6)%nat as [|[|[|[|[|[|?]]]]]]; cbn; lia.
Qed.

Lemma check_differs (s s' : Z) :
  0 <= s -> 0 <= s' -> s mod 11 <> s' mod 11 ->
  check_character (11 - s mod 11) <> check_character (11 - s' mod 11).
Proof.
  intros Hs Hs' Hne E.
  pose proof (Z.mod_pos_bound s 11 ltac:(lia)).
  pose proof (Z.mod_pos_bound s' 11 ltac:(lia)).
  apply check_character_inj in E; lia.
Qed.

(** [CalculateDV] detects every single-digit error: two bodies that
    differ in exactly one decimal digit (the digit at position [k], [d] in
    one and [d'] in the other; [hi] are the digits above it and [lo] the
    [k] digits below) never have the same check digit. *)
Theorem single_digit_error_detected (k : nat) (hi lo d d' : Z) :
  0 <= hi -> 0 <= lo < 10 ^ Z.of_nat k ->
  0 <= d <= 9 -> 0 <= d' <= 9 -> d <> d' ->
  hi * 10 ^ Z.of_nat (S k) + d * 10 ^ Z.of_nat k + lo <= maxInt ->
  hi * 10 ^ Z.of_nat (S k) + d' * 10 ^ Z.of_nat k + lo <= maxInt ->
  CalculateDV (hi * 10 ^ Z.of_nat (S k) + d * 10 ^ Z.of_nat k + lo)
  <> CalculateDV (hi * 10 ^ Z.of_nat (S k) + d' * 10 ^ Z.of_nat k + lo).
Proof.
  intros Hhi Hlo Hd Hd' Hne Hx Hx'.
  assert (Hp : 0 < 10 ^ Z.of_nat k) by (apply Z.pow_pos_nonneg; lia).
  assert (Hp' : 0 < 10 ^ Z.of_nat (S k)) by (apply Z.pow_pos_nonneg; lia).
  assert (H0 : 0 <= hi * 10 ^ Z.of_nat (S k) + d * 10 ^ Z.of_nat k + lo) by nia.
  assert (H0' : 0 <= hi * 10 ^ Z.of_nat (S k) + d' * 10 ^ Z.of_nat k + lo) by nia.
  destruct (CalculateDV_weighted _ (conj H0 Hx)) as [-> Hs].
  destruct (CalculateDV_weighted _ (conj H0' Hx')) as [-> Hs'].
  apply check_differs; try assumption.
  rewrite (weighted_digit_sum_digit k 0 hi d lo) by assumption.
  rewrite (weighted_digit_sum_digit k 0 hi d' lo) by assumption.
  set (a := weighted_digit_sum 0 (hi * 10 ^ Z.of_nat (S k) + lo)).
  pose proof (weight_range (0 + k)) as Hw.
  set (w := weight (0 + k)) in *.
  intros E.
  pose proof (Z.div_mod (a + d * w) 11 ltac:(lia)) as H1.
  pose proof (Z.div_mod (a + d' * w) 11 ltac:(lia)) as H2.
  rewrite E in H1.
  assert (Hw6 : w = 2 \/ w = 3 \/ w = 4 \/ w = 5 \/ w = 6 \/ w = 7) by lia.
  destruct Hw6 as [-> | [-> | [-> | [-> | [-> | ->]]]]]; lia.
Qed.

Lemma single_digit_error_detected_witness :
  CalculateDV 12345678 <> CalculateDV 12395678.
Proof.
  apply (single_digit_error_detected 4 123 5678 4 9);
    vm_compute; try split; congruence.
Defined.

(** [CalculateDV] detects every transposition of two adjacent digits: two
    bodies that differ only in that the distinct digits [a] and [b] at
    positions [k + 1] and [k] are exchanged never have the same check
    digit. *)
Theorem adjacent_transposition_detected (k : nat) (hi lo a b : Z) :
  0 <= hi -> 0 <= lo < 10 ^ Z.of_nat k ->
  0 <= a <= 9 -> 0 <= b <= 9 -> a <> b ->
  (hi * 10 + a) * 10 ^ Z.of_nat (S k) + b * 10 ^ Z.of_nat k + lo <= maxInt ->
  (hi * 10 + b) * 10 ^ Z.of_nat (S k) + a * 10 ^ Z.of_nat k + lo <= maxInt ->
  CalculateDV ((hi * 10 + a) * 10 ^ Z.of_nat (S k) + b * 10 ^ Z.of_nat k + lo)
  <> CalculateDV ((hi * 10 + b) * 10 ^ Z.of_nat (S k) + a * 10 ^ Z.of_nat k + lo).
Proof.
  intros Hhi Hlo Ha Hb Hne Hx Hx'.
  assert (Hp : 0 < 10 ^ Z.of_nat k) by (apply Z.pow_pos_nonneg; lia).
  assert (Hp' : 0 < 10 ^ Z.of_nat (S k)) by (apply Z.pow_pos_nonneg; lia).
  assert (E1 : 10 ^ Z.of_nat (S k) = 10 * 10 ^ Z.of_nat k)
    by (rewrite Nat2Z.inj_succ, Z.pow_succ_r by lia; reflexivity).
  assert (E2 : 10 ^ Z.of_nat (S (S k)) = 10 * 10 ^ Z.of_nat (S k))
    by (rewrite (Nat2Z.inj_succ (S k)), Z.pow_succ_r by lia; reflexivity).
  assert (H0 : 0 <= (hi * 10 + a) * 10 ^ Z.of_nat (S k)
                    + b * 10 ^ Z.of_nat k + lo) by nia.
  assert (H0' : 0 <= (hi * 10 + b) * 10 ^ Z.of_nat (S k)
                     + a * 10 ^ Z.of_nat k + lo) by nia.
  destruct (CalculateDV_weighted _ (conj H0 Hx)) as [-> Hs].
  destruct (CalculateDV_weighted _ (conj H0' Hx')) as [-> Hs'].
  apply check_differs; try assumption.
  (* the lower digit of the pair, then the upper one *)
  rewrite (weighted_digit_sum_digit k 0 (hi * 10 + a) b lo) by (assumption || lia).
  rewrite (weighted_digit_sum_digit k 0 (hi * 10 + b) a lo) by (assumption || lia).
  replace ((hi * 10 + a) * 10 ^ Z.of_nat (S k) + lo)
    with (hi * 10 ^ Z.of_nat (S (S k)) + a * 10 ^ Z.of_nat (S k) + lo)
    by (rewrite E2; lia).
  replace ((hi * 10 + b) * 10 ^ Z.of_nat (S k) + lo)
    with (hi * 10 ^ Z.of_nat (S (S k)) + b * 10 ^ Z.of_nat (S k) + lo)
    by (rewrite E2; lia).
  rewrite (weighted_digit_sum_digit (S k) 0 hi a lo) by (assumption || lia).
  rewrite (weighted_digit_sum_digit (S k) 0 hi b lo) by (assumption || lia).
  set (c := weighted_digit_sum 0 (hi * 10 ^ Z.of_nat (S (S k)) + lo)).
  pose proof (weight_succ (0 + k)) as Hw.
  pose proof (weight_range (0 + k)) as Hw0.
  change (0 + S k)%nat with (S (0 + k)).
  set (w0 := weight (0 + k)) in *. set (w1 := weight (S (0 + k))) in *.
  intros E.
  pose proof (Z.div_mod (c + a * w1 + b * w0) 11 ltac:(lia)) as H1.
  pose proof (Z.div_mod (c + b * w1 + a * w0) 11 ltac:(lia)) as H2.
  rewrite E in H1.
  assert (Hw6 : w0 = 2 \/ w0 = 3 \/ w0 = 4 \/ w0 = 5 \/ w0 = 6 \/ w0 = 7) by lia.
  destruct Hw as [Hw | Hw];
    destruct Hw6 as [E0 | [E0 | [E0 | [E0 | [E0 | E0]]]]];
    rewrite E0 in *; assert (Ew1 : w1 = w0 + (w1 - w0)) by lia;
    rewrite E0, Hw in Ew1; rewrite Ew1 in *; lia.
Qed.

Lemma adjacent_transposition_detected_witness :
  CalculateDV 12345678 <> CalculateDV 12354678.
Proof.
  apply (adjacent_transposition_detected 3 123 678 4 5);
    vm_compute; try split; congruence.
Defined.

(** ** No index out of range *)

Lemma scan_checked_eq (s : list byte) :
  forall raw n, length raw = 12%nat ->
                scan_checked s raw (Z.of_nat n)
                = Some (scan_result_int (scan s raw n)).
Proof.
  induction s as [| c s IH]; intros raw n Hraw; [ reflexivity | ].
  cbn [scan scan_checked].
  destruct (is_sep c); [ apply IH, Hraw | ].
  destruct (12 <=? n)%nat eqn:E.
  { apply Nat.leb_le in E.
    rewrite (proj2 (Z.leb_le _ _)) by lia. reflexivity. }
  apply Nat.leb_gt in E.
  rewrite (proj2 (Z.leb_gt _ _)) by lia.
  destruct (isValidRUTChar c) as [char ok].
  destruct (negb ok); [ reflexivity | ].
  unfold store.
  rewrite (proj2 (Z.leb_le _ _)), (proj2 (Z.ltb_lt _ _)) by lia.
  cbn [andb]. rewrite Nat2Z.id.
  replace (Z.of_nat n + 1) with (Z.of_nat (S n)) by lia.
  apply IH. rewrite length_insert. exact Hraw.
Qed.

(** The scan keeps the buffer at its length and the count within it. *)
Lemma scan_invariant (s : list byte) :
  forall raw n raw' n',
    scan s raw n = Ok (raw', n') ->
    length raw' = length raw /\ ((n <= 12)%nat -> (n' <= 12)%nat).
Proof.
  induction s as [| c s IH]; intros raw n raw' n' H; cbn [scan] in H.
  - injection H as <- <-. auto.
  - destruct (is_sep c); [ apply (IH _ _ _ _ H) | ].
    destruct (12 <=? n)%nat eqn:E; [ discriminate | ].
    apply Nat.leb_gt in E.
    destruct (isValidRUTChar c) as [char ok].
    destruct (negb ok); [ discriminate | ].
    destruct (IH _ _ _ _ H) as [Hlen Hn].
    rewrite length_insert in Hlen. split; [ exact Hlen | ].
    intros _. apply Hn. lia.
Qed.

Lemma index_in_range (raw : list byte) (i : nat) :
  (i < length raw)%nat -> index raw (Z.of_nat i) = Some (nth i raw zero).
Proof.
  intros Hi. unfold index.
  rewrite (proj2 (Z.leb_le _ _)), (proj2 (Z.ltb_lt _ _)) by lia.
  cbn [andb]. rewrite Nat2Z.id.
  destruct (lookup_lt_is_Some_2 raw i Hi) as [x Hx].
  rewrite Hx, (nth_lookup_Some _ _ _ _ Hx). reflexivity.
Qed.

Lemma misplaced_K_checked_eq (raw : list byte) (indices : list nat) :
  (forall i, In i indices -> (i < length raw)%nat) ->
  misplaced_K_checked raw (map Z.of_nat indices)
  = Some (existsb (fun i => byte_eq (nth i raw zero) "K") indices).
Proof.
  induction indices as [| i rest IH]; intros Hin; [ reflexivity | ].
  cbn [map misplaced_K_checked existsb].
  rewrite (index_in_range raw i (Hin i (or_introl eq_refl))).
  destruct (byte_eq (nth i raw zero) "K"); [ reflexivity | ].
  apply IH. intros j Hj. apply Hin. right. exact Hj.
Qed.

(** [Parse] never indexes or slices [raw] out of range, at either end,
    whatever the input: with Go's bounds checks written out it returns,
    without a panic, what [Parse] returns. *)
Theorem Parse_never_panics (s : list byte) :
  Parse_checked s = Some (Parse s).
Proof.
  destruct s as [| c0 s0]; [ reflexivity | ].
  unfold Parse_checked, Parse.
  rewrite (scan_checked_eq (c0 :: s0) _ 0%nat) by apply length_replicate.
  destruct (scan (c0 :: s0) (replicate 12 zero) 0) as [[raw n] | e] eqn:Hscan;
    [ | reflexivity ].
  destruct (scan_invariant _ _ _ _ _ Hscan) as [Hlen Hn].
  rewrite length_replicate in Hlen. specialize (Hn ltac:(lia)).
  cbn [scan_result_int].
  destruct (n <? 5)%nat eqn:H5.
  { apply Nat.ltb_lt in H5.
    rewrite (proj2 (Z.ltb_lt _ _)) by lia. reflexivity. }
  apply Nat.ltb_ge in H5. rewrite (proj2 (Z.ltb_ge _ _)) by lia.
  destruct (10 <? n)%nat eqn:H10.
  { apply Nat.ltb_lt in H10.
    rewrite (proj2 (Z.ltb_lt _ _)) by lia. reflexivity. }
  apply Nat.ltb_ge in H10. rewrite (proj2 (Z.ltb_ge _ _)) by lia.
  replace (Z.of_nat n - 1) with (Z.of_nat (n - 1)) by lia.
  rewrite index_in_range by lia.
  unfold loop_indices. rewrite Nat2Z.id.
  rewrite misplaced_K_checked_eq
    by (intros i Hi; apply in_seq in Hi; lia).
  fold (misplaced_K raw n).
  destruct (misplaced_K raw n); [ reflexivity | ].
  unfold slice_to.
  rewrite (proj2 (Z.leb_le 0 _)), (proj2 (Z.leb_le _ (Z.of_nat (length raw))))
    by lia.
  cbn [andb]. rewrite Nat2Z.id.
  destruct (Atoi (take (n - 1) raw)); reflexivity.
Qed.

(** The lower bound is a real check: without the guard [n < 5] an input
    of separators only would reach [raw[n-1]] with [n = 0]. *)
Example index_below_zero :
  index (replicate 12 zero) (0 - 1) = None /\
  slice_to (replicate 12 zero) (0 - 1) = None.
Proof. split; reflexivity. Qed.

Lemma multipliers_checked_eq (i : Z) :
  0 <= i < 6 -> multipliers_checked i = Some (multipliers_at i).
Proof.
  intros Hi. unfold multipliers_checked, multipliers_at.
  rewrite (proj2 (Z.leb_le _ _)), (proj2 (Z.ltb_lt _ _)) by lia.
  assert (Hn : (Z.to_nat i < 6)%nat) by lia.
  destruct (Z.to_nat i) as [|[|[|[|[|[|?]]]]]]; try reflexivity. lia.
Qed.

Lemma multiplierIdx_range (i : Z) :
  0 <= i < 6 -> 0 <= Z.rem (int_add i 1) 6 < 6.
Proof.
  intros Hi. unfold int_add.
  rewrite int_wrap_small by (apply small_int; lia).
  rewrite Z.rem_mod_nonneg by lia. apply Z.mod_pos_bound. lia.
Qed.

Lemma dv_loop_checked_eq (m : nat) :
  forall number sum idx,
    (bitlen number <= m)%nat \/ number <= 0 -> 0 <= idx < 6 ->
    dv_loop_checked number sum idx = Some (dv_loop number sum idx).
Proof.
  induction m as [| m IH]; intros number sum idx Hm Hidx;
    rewrite dv_loop_checked_equation_1, dv_loop_equation_1;
    destruct (Z_lt_dec 0 number) as [Hpos | Hneg]; try reflexivity.
  - pose proof (bitlen_pos number Hpos). lia.
  - cbn. rewrite (multipliers_checked_eq idx Hidx). cbv zeta.
    apply IH; [ | apply multiplierIdx_range, Hidx ].
    left. rewrite Z.quot_div_nonneg by lia.
    pose proof (bitlen_div10 number Hpos). lia.
Qed.

(** [CalculateDV] never reads [multipliers] out of range: for every
    [number], with the bounds check written out, its loop returns without
    a panic the sum the loop of [CalculateDV] returns. *)
Theorem CalculateDV_never_panics (number : Z) :
  dv_loop_checked number 0 0 = Some (dv_loop number 0 0).
Proof.
  apply (dv_loop_checked_eq (bitlen number)); [ left | ]; lia.
Qed.

(** ** What the code never reaches *)

(** The sum [CalculateDV] accumulates never overflows: for a positive
    [int] it is the exact weighted sum of the decimal digits, at most 19
    of them, hence at most [19 * 63]; the wrapping additions and
    multiplications of the loop never wrap. *)
Theorem CalculateDV_sum_bounded (number : Z) :
  0 < number <= maxInt ->
  dv_loop number 0 0 = weighted_digit_sum 0 number /\
  0 <= dv_loop number 0 0 <= 1197.
Proof.
  intros [Hpos Hhi].
  destruct (dv_loop_sum number (conj Hpos Hhi)) as [Hloop _].
  unfold decimal_digits in Hloop. rewrite Itoa_nonneg in Hloop by lia.
  fold (weighted_digit_sum 0 number) in Hloop.
  split; [ exact Hloop | ]. rewrite Hloop. unfold weighted_digit_sum.
  pose proof (weighted_sum_bound (rev (map decimal_digit (utoa number))) 0)
    as Hbound.
  rewrite length_rev, List.length_map in Hbound.
  assert (Hdigits : Forall (fun d => 0 <= d <= 9)
                           (rev (map decimal_digit (utoa number)))).
  { apply Forall_rev. pose proof (decimal_digits_range number ltac:(lia)) as H.
    unfold decimal_digits in H. rewrite Itoa_nonneg in H by lia. exact H. }
  specialize (Hbound Hdigits).
  assert (Hlen : (length (utoa number) <= 19)%nat).
  { apply (utoa_length_le 18). split; [ lia | ].
    assert (maxInt < 10 ^ Z.of_nat 19) by (vm_compute; reflexivity). lia. }
  lia.
Qed.

Lemma CalculateDV_sum_bounded_witness :
  dv_loop maxInt 0 0 = weighted_digit_sum 0 maxInt /\
  0 <= dv_loop maxInt 0 0 <= 1197.
Proof.
  apply (CalculateDV_sum_bounded maxInt).
  vm_compute. split; [ reflexivity | discriminate ].
Defined.

(** The [ErrInvalidFormat] return that follows [strconv.Atoi] in [Parse]
    is never taken: once the scan has succeeded, the count is between 5
    and 10 and no ['K'] is misplaced, [raw[:n-1]] holds from four to nine
    digits and [Atoi] returns the number they denote. *)
Theorem Atoi_error_unreachable (s raw : list byte) (n : nat) :
  scan s (replicate 12 zero) 0 = Ok (raw, n) ->
  (5 <= n <= 10)%nat -> misplaced_K raw n = false ->
  forallb is_digit (take (n - 1) raw) = true /\
  Atoi (take (n - 1) raw) = Some (dec_value (take (n - 1) raw)).
Proof.
  intros Hscan Hn HK.
  set (m := meaningful s).
  assert (Hall12 : forallb allowed (take 12 m) = true).
  { destruct (forallb allowed (take 12 m)) eqn:E; [ reflexivity | ].
    rewrite (scan_invalid s _ 0%nat E) in Hscan. discriminate. }
  assert (Hle : (length m <= 12)%nat).
  { destruct (le_lt_dec (length m) 12) as [H | H]; [ exact H | ].
    rewrite (scan_too_long s _ 0%nat (Nat.le_0_l _) Hall12 H) in Hscan.
    discriminate. }
  rewrite take_ge in Hall12 by exact Hle.
  destruct (scan_ok s (replicate 12 zero) 0%nat Hall12 Hle
              (length_replicate _ _)) as (raw' & Hscan' & Hraw & Htake).
  rewrite Hscan in Hscan'. injection Hscan' as <- ->.
  cbn [Nat.add] in *. fold m in Htake, HK, Hn |- *.
  rewrite take_0 in Htake. cbn [app] in Htake.
  assert (Hbody : take (length m - 1) raw
                  = map normalize (take (length m - 1) m)).
  { rewrite <- List.firstn_map, <- Htake, take_take. f_equal. lia. }
  pose proof (forallb_take _ _ (length m - 1) Hall12) as Hall'.
  rewrite misplaced_K_take in HK by lia.
  rewrite Hbody, existsb_K_normalize in HK by exact Hall'.
  pose proof (body_digits _ Hall' HK) as Hdig.
  rewrite Hbody, normalize_digits by exact Hdig.
  split; [ exact Hdig | ].
  apply Atoi_digits; [ | exact Hdig | rewrite length_take; lia ].
  intros E. apply (f_equal (@length byte)) in E.
  rewrite length_take in E. simpl in E. lia.
Qed.

Lemma Atoi_error_unreachable_witness :
  forallb is_digit (take (6 - 1) (str "000109" ++ replicate 6 zero)) = true /\
  Atoi (take (6 - 1) (str "000109" ++ replicate 6 zero))
  = Some (dec_value (take (6 - 1) (str "000109" ++ replicate 6 zero))).
Proof.
  apply (Atoi_error_unreachable (str "00.010-9")
           (str "000109" ++ replicate 6 zero) 6);
    [ reflexivity | lia | reflexivity ].
Defined.
